(** * makeseeds: the seed-list filtering pipeline of contrib/seeds/makeseeds.py

    A shallow embedding of [parseline], [filtermultiport], [filterbyasn] and
    [main], and the properties of the pipeline stated in the design document.

    Conventions of the embedding.
    - A Python [str] is a [string]; a character is an [ascii], read as a code
      point below 256. On these the classes [\d] and [0-9] are the same, and
      the whitespace of [str.split] is 9 to 13, 28 to 32, 133 and 160.
    - A Python [int] is a [Z]; a Python [float] is a binary64 value, a
      [spec_float] rounded with precision 53 and maximal exponent 1024.
      [int] and [float] follow the grammar of the literals they accept (sign,
      underscores between digits, the prefix of a hexadecimal number,
      [inf] and [nan], exponents). [int] in base 10 refuses a literal of
      more than 4300 digits, as CPython does from version 3.11 on with
      [sys.int_max_str_digits] at its default; base 16 has no such bound.
    - A call that may raise is a computation in the [outcome] monad; the
      exceptions the script can meet are [ValueError] and [IndexError].
    - The dictionary a record is stored in becomes the record type [node];
      the dictionary [hist] of [filtermultiport] keeps its keys in the order
      of their insertion, and is a list of entries.
    - [list.sort] is stable; it is the insertion sort [sort_by].
    - The DNS lookup of [filterbyasn] is an oracle from the textual address to
      an optional ASN, [None] when anything in the [try] raises; what the
      script writes to its error stream is returned next to the value.
    - Reading the standard input and printing are outside: [main] takes the
      lines read and returns the lines printed. *)

From Stdlib Require Import ZArith Ascii String DecimalString SpecFloat Sorted.
From stdpp Require Import base tactics option list gmap strings sorting.

Local Open Scope Z_scope.

(** ** Exceptions *)

Inductive exn : Set := ValueError | IndexError.

Inductive outcome (A : Type) : Type :=
| Ok (a : A)
| Raise (e : exn).
Arguments Ok {A} a.
Arguments Raise {A} e.

#[global] Instance outcome_ret : MRet outcome := fun A a => Ok a.
#[global] Instance outcome_bind : MBind outcome := fun A B f m =>
  match m with
  | Ok a => f a
  | Raise e => Raise e
  end.
#[global] Instance outcome_fmap : FMap outcome := fun A B f m =>
  match m with
  | Ok a => Ok (f a)
  | Raise e => Raise e
  end.

(** [raises m] : the computation ends with an exception. *)
Definition raises {A} (m : outcome A) : Prop :=
  match m with
  | Ok _ => False
  | Raise _ => True
  end.

(** ** Python built-ins used by the script *)

Module Py.

(** *** Characters *)

Definition ord (c : ascii) : Z := Z.of_N (N_of_ascii c).

(** [str.isspace] on code points below 256. *)
Definition isspace (c : ascii) : bool :=
  let n := ord c in
  ((9 <=? n) && (n <=? 13)) || ((28 <=? n) && (n <=? 32))
  || (n =? 133) || (n =? 160).

(** The class [\d] (and [0-9]) on code points below 256. *)
Definition isdigit (c : ascii) : bool :=
  let n := ord c in (48 <=? n) && (n <=? 57).

Definition islower (c : ascii) : bool :=
  let n := ord c in (97 <=? n) && (n <=? 122).

Definition isupper (c : ascii) : bool :=
  let n := ord c in (65 <=? n) && (n <=? 90).

Definition lower (c : ascii) : ascii :=
  if isupper c then ascii_of_N (Z.to_N (ord c + 32)) else c.

(** Value of a character as a digit, in any base up to 36. *)
Definition digit_val (c : ascii) : option Z :=
  if isdigit c then Some (ord c - 48)
  else if islower c then Some (ord c - 87)
  else if isupper c then Some (ord c - 55)
  else None.

(** *** Strings: slices, split, strip *)

(** [s[1:]] *)
Definition drop_first (s : string) : string :=
  match s with
  | EmptyString => EmptyString
  | String _ s' => s'
  end.

(** [s[:-1]] *)
Fixpoint drop_last (s : string) : string :=
  match s with
  | EmptyString => EmptyString
  | String c EmptyString => EmptyString
  | String c s' => String c (drop_last s')
  end.

(** [s[1:-1]] *)
Definition strip_ends (s : string) : string := drop_last (drop_first s).

Definition flush (cur : option string) : list string :=
  match cur with
  | Some w => [w]
  | None => []
  end.

Definition push (cur : option string) (c : ascii) : option string :=
  match cur with
  | Some w => Some (w +:+ String c EmptyString)
  | None => Some (String c EmptyString)
  end.

(** [s.split()] : the maximal runs of characters that are not whitespace. *)
Fixpoint split_go (cur : option string) (s : string) : list string :=
  match s with
  | EmptyString => flush cur
  | String c s' =>
      if isspace c then flush cur ++ split_go None s'
      else split_go (push cur c) s'
  end.

Definition split (s : string) : list string := split_go None s.

(** The whitespace [int] and [float] skip at both ends of their argument:
    the ASCII blanks and the whitespace above 127 (the separators 28 to 31
    are not skipped). *)
Definition isblank (c : ascii) : bool :=
  let n := ord c in
  ((9 <=? n) && (n <=? 13)) || (n =? 32) || (n =? 133) || (n =? 160).

Fixpoint lstrip (s : string) : string :=
  match s with
  | String c s' => if isblank c then lstrip s' else s
  | EmptyString => EmptyString
  end.

Fixpoint rstrip (s : string) : string :=
  match s with
  | String c s' =>
      match rstrip s' with
      | EmptyString => if isblank c then EmptyString else String c EmptyString
      | r => String c r
      end
  | EmptyString => EmptyString
  end.

(** The argument of a conversion without the whitespace around it. *)
Definition strip (s : string) : string := rstrip (lstrip s).

(** [l[i]] for an index that is not negative. *)
Definition index {A} (l : list A) (i : nat) : outcome A :=
  match l !! i with
  | Some x => Ok x
  | None => Raise IndexError
  end.

(** [re.sub(' ', '-', s)] *)
Fixpoint sub_space_hyphen (s : string) : string :=
  match s with
  | EmptyString => EmptyString
  | String c s' =>
      String (if Ascii.eqb c " "%char then "-"%char else c) (sub_space_hyphen s')
  end.

(** *** int() *)

(** The digits of an integer literal: at least one digit, single underscores
    between digits only. [prev] is the previous character, if any. *)
Fixpoint int_digits (base acc : Z) (prev : option ascii) (s : string) : option Z :=
  match s with
  | EmptyString =>
      match prev with
      | None => None
      | Some p => if Ascii.eqb p "_"%char then None else Some acc
      end
  | String c s' =>
      if Ascii.eqb c "_"%char then
        match prev with
        | None => None
        | Some p => if Ascii.eqb p "_"%char then None else int_digits base acc (Some c) s'
        end
      else
        match digit_val c with
        | Some d => if d <? base then int_digits base (acc * base + d) (Some c) s' else None
        | None => None
        end
  end.

(** An optional sign. *)
Definition take_sign (s : string) : bool * string :=
  match s with
  | String c s' =>
      if Ascii.eqb c "-"%char then (true, s')
      else if Ascii.eqb c "+"%char then (false, s')
      else (false, s)
  | EmptyString => (false, s)
  end.

Definition apply_sign (neg : bool) (n : Z) : Z := if neg then - n else n.

(** The prefix [0x] or [0X] of a hexadecimal literal, and the one underscore
    that may follow it. *)
Definition skip_hex_prefix (s : string) : string :=
  match s with
  | String c0 (String c1 s') =>
      if Ascii.eqb c0 "0"%char && (Ascii.eqb c1 "x"%char || Ascii.eqb c1 "X"%char) then
        match s' with
        | String c2 s'' => if Ascii.eqb c2 "_"%char then s'' else s'
        | EmptyString => s'
        end
      else s
  | _ => s
  end.

Definition value_error {A} (o : option A) : outcome A :=
  match o with
  | Some a => Ok a
  | None => Raise ValueError
  end.

(** The largest number of digits [int] converts in a base that is not a
    power of two: [sys.int_max_str_digits], at its default. *)
Definition int_max_str_digits : Z := 4300.

(** The number of digits of a literal: its characters but the underscores,
    leading zeros included. *)
Fixpoint count_digits (s : string) : Z :=
  match s with
  | EmptyString => 0
  | String c s' => (if Ascii.eqb c "_"%char then 0 else 1) + count_digits s'
  end.

(** [int(s)] : a literal that is not well formed and a literal with too many
    digits both raise [ValueError]. *)
Definition int (s : string) : outcome Z :=
  let '(neg, body) := take_sign (strip s) in
  value_error (
    n ← int_digits 10 0 None body;
    if count_digits body <=? int_max_str_digits
    then Some (apply_sign neg n) else None).

(** [int(s, 16)] *)
Definition int16 (s : string) : outcome Z :=
  let '(neg, body) := take_sign (strip s) in
  value_error (apply_sign neg <$> int_digits 16 0 None (skip_hex_prefix body)).

(** *** float() *)

(** A binary64 value. *)
Definition float : Set := spec_float.

Definition prec : Z := 53.
Definition emax : Z := 1024.

(** The integer [n] as a float (exact for the small constants of the script). *)
Definition float_of_Z (n : Z) : float := binary_normalize prec emax n 0 false.

(** The comparisons of two floats; every comparison with a NaN is false. *)
Definition float_ltb (x y : float) : bool := SFltb x y.
Definition float_eqb (x y : float) : bool := SFeqb x y.

(** The float nearest to [m * 10 ^ e10] (ties to even), for [0 <= m]. When the
    exponent is negative the quotient is taken with more than a thousand extra
    bits and a sticky last bit, so that one rounding gives the nearest float. *)
Definition round_dec (neg : bool) (m e10 : Z) : float :=
  if m =? 0 then S754_zero neg
  else if 0 <=? e10 then
    binary_normalize prec emax (apply_sign neg (m * 10 ^ e10)) 0 neg
  else
    let d := 10 ^ (- e10) in
    let s := Z.log2 d + 1100 in
    let n := Z.shiftl m s in
    let sticky := if n mod d =? 0 then 0 else 1 in
    binary_normalize prec emax (apply_sign neg (2 * (n / d) + sticky)) (- (s + 1)) neg.

(** Underscores of a float literal: each one between two digits. The result
    is the literal without them. *)
Fixpoint float_underscores (prev : option ascii) (s : string) : option string :=
  match s with
  | EmptyString =>
      match prev with
      | Some p => if Ascii.eqb p "_"%char then None else Some EmptyString
      | None => Some EmptyString
      end
  | String c s' =>
      if Ascii.eqb c "_"%char then
        match prev with
        | Some p => if isdigit p then float_underscores (Some c) s' else None
        | None => None
        end
      else
        match prev with
        | Some p =>
            if Ascii.eqb p "_"%char && negb (isdigit c) then None
            else String c <$> float_underscores (Some c) s'
        | None => String c <$> float_underscores (Some c) s'
        end
  end.

(** The longest prefix of characters of a class, and the rest. *)
Fixpoint span (p : ascii -> bool) (s : string) : string * string :=
  match s with
  | String c s' =>
      if p c then let '(d, r) := span p s' in (String c d, r)
      else (EmptyString, s)
  | EmptyString => (EmptyString, EmptyString)
  end.

Definition span_digits : string -> string * string := span isdigit.

(** The value of a run of decimal digits. *)
Fixpoint dec_value (acc : Z) (s : string) : Z :=
  match s with
  | String c s' => dec_value (acc * 10 + (ord c - 48)) s'
  | EmptyString => acc
  end.

Definition lower_string (s : string) : string :=
  string_of_list_ascii (lower <$> list_ascii_of_string s).

(** The exponent part of a float literal: empty, or [e], an optional sign and
    at least one digit, up to the end of the literal. *)
Definition float_exponent (s : string) : option Z :=
  match s with
  | EmptyString => Some 0
  | String c s' =>
      if Ascii.eqb (lower c) "e"%char then
        let '(neg, body) := take_sign s' in
        let '(ds, rest) := span_digits body in
        match ds, rest with
        | String _ _, EmptyString => Some (apply_sign neg (dec_value 0 ds))
        | _, _ => None
        end
      else None
  end.

(** A decimal float literal without its sign. *)
Definition float_decimal (neg : bool) (s : string) : option float :=
  let '(ip, r1) := span_digits s in
  let '(fp, r2) :=
    match r1 with
    | String c r => if Ascii.eqb c "."%char then span_digits r else (EmptyString, r1)
    | EmptyString => (EmptyString, r1)
    end in
  match (ip +:+ fp)%string with
  | EmptyString => None
  | String _ _ =>
      x ← float_exponent r2;
      Some (round_dec neg (dec_value 0 (ip +:+ fp)) (x - Z.of_nat (String.length fp)))
  end.

(** [float(s)] *)
Definition float_of_string (s : string) : outcome float :=
  value_error (
    lit ← float_underscores None (strip s);
    let '(neg, body) := take_sign lit in
    let low := lower_string body in
    if String.eqb low "inf" || String.eqb low "infinity" then Some (S754_infinity neg)
    else if String.eqb low "nan" then Some S754_nan
    else float_decimal neg body).

End Py.

(** ** Configuration constants *)

Definition NSEEDS : Z := 512.

Definition MAX_SEEDS_PER_ASN : Z := 2.

Definition MIN_BLOCKS : Z := 615801.

(** Hosts that have been observed to be behaving strangely. *)
Definition SUSPICIOUS_HOSTS : list string := [""].

(** ** Regular expressions

    Each compiled pattern is the function from a subject to the groups of
    its match at the start of the subject, [None] when there is no match
    ([re.match]); group [k] is the element [k - 1] of the list. *)

Definition newline : ascii := "010"%char.

(** [$] : the end of the subject, or just before a newline that ends it. *)
Definition at_end (s : string) : bool :=
  String.eqb s EmptyString || String.eqb s (String newline EmptyString).

(** The subject without a literal prefix. *)
Fixpoint literal (pre s : string) : option string :=
  match pre, s with
  | EmptyString, _ => Some s
  | String a pre', String b s' => if Ascii.eqb a b then literal pre' s' else None
  | String _ _, EmptyString => None
  end.

(** [(\d{1,3})] followed by the literal [sep]. *)
Definition octet_then (sep : string) (s : string) : option (string * string) :=
  let '(d, r) := Py.span_digits s in
  if ((1 <=? String.length d) && (String.length d <=? 3))%nat
  then r' ← literal sep r; Some (d, r')
  else None.

(** [:(\d+)$] *)
Definition port_suffix (s : string) : option string :=
  r ← literal ":" s;
  let '(p, e) := Py.span_digits r in
  if (1 <=? String.length p)%nat && at_end e then Some p else None.

(** [^((\d{1,3})\.(\d{1,3})\.(\d{1,3})\.(\d{1,3})):(\d+)$] *)
Definition PATTERN_IPV4 (s : string) : option (list string) :=
  '(a, r1) ← octet_then "." s;
  '(b, r2) ← octet_then "." r1;
  '(c, r3) ← octet_then "." r2;
  '(d, r4) ← octet_then "" r3;
  p ← port_suffix r4;
  Some [a +:+ "." +:+ b +:+ "." +:+ c +:+ "." +:+ d; a; b; c; d; p].

Definition ipv6_char (c : ascii) : bool :=
  Py.isdigit c || Py.islower c || Ascii.eqb c ":"%char.

(** [^\[([0-9a-z:]+)\]:(\d+)$] *)
Definition PATTERN_IPV6 (s : string) : option (list string) :=
  r0 ← literal "[" s;
  let '(h, r1) := Py.span ipv6_char r0 in
  if (1 <=? String.length h)%nat then
    r2 ← literal "]" r1;
    p ← port_suffix r2;
    Some [h; p]
  else None.

Definition base32_char (c : ascii) : bool :=
  Py.islower c || ((50 <=? Py.ord c) && (Py.ord c <=? 55)).

(** [^([abcdefghijklmnopqrstuvwxyz234567]{16}\.onion):(\d+)$] *)
Definition PATTERN_ONION (s : string) : option (list string) :=
  let '(h, r1) := Py.span base32_char s in
  if (String.length h =? 16)%nat then
    r2 ← literal ".onion" r1;
    p ← port_suffix r2;
    Some [h +:+ ".onion"; p]
  else None.

(** [.] : any character but a newline. *)
Definition dot (c : ascii) : bool := negb (Ascii.eqb c newline).

(** [^(/ZMGCore:2.2.(0|1|99)/)$] ; only whether it matches is used. *)
Definition PATTERN_AGENT (s : string) : bool :=
  match literal "/ZMGCore:2" s with
  | Some (String c1 r1) =>
      match literal "2" r1 with
      | Some (String c2 r2) =>
          dot c1 && dot c2 &&
          existsb (fun alt =>
                     match literal (alt +:+ "/") r2 with
                     | Some e => at_end e
                     | None => false
                     end) ["0"; "1"; "99"]
      | _ => false
      end
  | _ => false
  end.

(** [m.group(k)] *)
Definition group (m : list string) (k : nat) : string :=
  default EmptyString (m !! (k - 1)%nat).

(** ** Records *)

(** The value of the entry ['net']. *)
Inductive network : Set := ipv4 | ipv6 | onion.

Definition net_name (n : network) : string :=
  match n with
  | ipv4 => "ipv4"
  | ipv6 => "ipv6"
  | onion => "onion"
  end.

(** The value of the entry ['sortkey']: an [int] for IPv4, a [str] otherwise. *)
Inductive key : Set :=
| KInt (n : Z)
| KStr (s : string).

(** The dictionary [parseline] returns. *)
Record node : Set := Node {
  net : network;
  ip : string;
  port : Z;
  ipnum : option Z;
  uptime : Py.float;
  lastsuccess : Z;
  version : Z;
  agent : string;
  service : Z;
  blocks : Z;
  sortkey : key;
}.

#[global] Instance network_eq_dec : EqDecision network.
Proof. solve_decision. Defined.
#[global] Instance key_eq_dec : EqDecision key.
Proof. solve_decision. Defined.
#[global] Instance spec_float_eq_dec : EqDecision spec_float.
Proof. solve_decision. Defined.
#[global] Instance node_eq_dec : EqDecision node.
Proof. unfold Py.float. solve_decision. Defined.

(** ** parseline *)

(** [a == n] for a [str] and an [int]: objects of the two types are never
    equal. *)
Definition str_eq_int (a : string) (n : Z) : bool := false.

(** The loop over the four octets of an IPv4 match: [None] is the early
    [return None], [Some ip] the number the loop ends with. *)
Fixpoint octets (m : list string) (range : list nat) (ip : Z) : outcome (option Z) :=
  match range with
  | [] => Ok (Some ip)
  | i :: range' =>
      o ← Py.int (group m (i + 2));
      if (o <? 0) || (255 <? o) then Ok None
      else octets m range' (ip + Z.shiftl o (8 * (3 - Z.of_nat i)))
  end.

(** What the address part of [parseline] binds:
    [net], [zmgtr], [port], [ip] and [sortkey]. *)
Definition address : Set := network * string * Z * option Z * key.

(** The address part of [parseline], on the first field: the three grammars
    in turn. [Ok None] is [return None]. *)
Definition parse_address (field : string) : outcome (option address) :=
  match PATTERN_IPV4 field with
  | None =>
      match PATTERN_IPV6 field with
      | None =>
          match PATTERN_ONION field with
          | None => Ok None
          | Some m =>
              port ← Py.int (group m 2);
              Ok (Some (onion, group m 1, port, None, KStr (group m 1)))
          end
      | Some m =>
          if bool_decide (group m 1 ∈ ["::"]) then Ok None
          else
            port ← Py.int (group m 2);
            Ok (Some (ipv6, group m 1, port, None, KStr (group m 1)))
      end
  | Some m =>
      r ← octets m [0; 1; 2; 3]%nat 0;
      match r with
      | None => Ok None
      | Some ip =>
          if ip =? 0 then Ok None
          else
            port ← Py.int (group m 6);
            Ok (Some (ipv4, group m 1, port, Some ip, KInt ip))
      end
  end.

(** The user agent of a line. *)
Definition parse_agent (sline : list string) : outcome string :=
  if (11 <? length sline)%nat then
    a ← Py.index sline 11;
    b ← Py.index sline 12;
    Ok (Py.drop_first a +:+ Py.drop_last b)
  else
    a ← Py.index sline 11;
    Ok (Py.strip_ends a).

Definition parseline (line : string) : outcome (option node) :=
  let sline := Py.split line in
  if (length sline <? 11)%nat then Ok None
  else
    field ← Py.index sline 0;
    a ← parse_address field;
    match a with
    | None => Ok None
    | Some (net, zmgtr, port, ip, sortkey) =>
        good ← Py.index sline 1;
        if str_eq_int good 0 then Ok None
        else
          up ← Py.index sline 7;
          uptime30 ← Py.float_of_string (Py.drop_last up);
          ls ← Py.index sline 2;
          lastsuccess ← Py.int ls;
          ve ← Py.index sline 10;
          version ← Py.int ve;
          agent ← parse_agent sline;
          se ← Py.index sline 9;
          service ← Py.int16 se;
          bl ← Py.index sline 8;
          blocks ← Py.int bl;
          Ok (Some {| net := net; ip := zmgtr; port := port; ipnum := ip;
                      uptime := uptime30; lastsuccess := lastsuccess;
                      version := version; agent := agent; service := service;
                      blocks := blocks; sortkey := sortkey |})
    end.

(** ** filtermultiport *)

(** The dictionary [hist], its keys in the order of their first insertion. *)
Definition hist_t : Set := list (key * list node).

(** [hist[k].append(x)] on a [defaultdict(list)]. *)
Fixpoint hist_append (hist : hist_t) (k : key) (x : node) : hist_t :=
  match hist with
  | [] => [(k, [x])]
  | (k', v) :: h =>
      if decide (k' = k) then (k', v ++ [x]) :: h
      else (k', v) :: hist_append h k x
  end.

(** [[value[0] for (key,value) in list(hist.items()) if len(value)==1]] *)
Definition singletons (hist : hist_t) : list node :=
  omap (fun kv => if (length kv.2 =? 1)%nat then head kv.2 else None) hist.

Definition filtermultiport (zmg : list node) : list node :=
  let hist := foldl (fun h x => hist_append h (sortkey x) x) [] zmg in
  singletons hist.

(** ** filterbyasn *)

(** ['ERR: Could not resolve ASN for "' + ip['ip'] + '"\n'] *)
Definition asn_error (x : node) : string :=
  "ERR: Could not resolve ASN for " +:+ String "034"%char (ip x)
  +:+ String "034"%char (String newline EmptyString).

(** The variables of the loop of [filterbyasn], and the error stream. *)
Record asn_state : Type := AsnState {
  result : list node;
  asn_count : gmap Z Z;
  stderr : list string;
}.

Section Filterbyasn.

(** The lookup of the origin of an address, as the body of the [try] sees it:
    the ASN, or [None] when anything in it raises. *)
Variable resolve : string -> option Z.

(** One iteration of the loop, past the test for [break]. *)
Definition asn_step (max_per_asn : Z) (st : asn_state) (x : node) : asn_state :=
  match resolve (ip x) with
  | Some asn =>
      let count :=
        match asn_count st !! asn with
        | None => <[asn := 0]> (asn_count st)
        | Some _ => asn_count st
        end in
      let n := default 0 (count !! asn) in
      if n =? max_per_asn
      then {| result := result st; asn_count := count; stderr := stderr st |}
      else {| result := result st ++ [x];
              asn_count := <[asn := n + 1]> count;
              stderr := stderr st |}
  | None =>
      {| result := result st; asn_count := asn_count st;
         stderr := stderr st ++ [asn_error x] |}
  end.

Fixpoint asn_loop (max_per_asn max_total : Z) (zmg_ipv4 : list node)
    (st : asn_state) : asn_state :=
  match zmg_ipv4 with
  | [] => st
  | x :: rest =>
      if Z.of_nat (length (result st)) =? max_total then st
      else asn_loop max_per_asn max_total rest (asn_step max_per_asn st x)
  end.

Definition by_net (n : network) (zmg : list node) : list node :=
  filter (fun x => net x = n) zmg.

(** The returned list, and what was written to the error stream. *)
Definition filterbyasn (zmg : list node) (max_per_asn max_total : Z)
    : list node * list string :=
  let zmg_ipv4 := by_net ipv4 zmg in
  let zmg_ipv6 := by_net ipv6 zmg in
  let zmg_onion := by_net onion zmg in
  let st := asn_loop max_per_asn max_total zmg_ipv4
              {| result := []; asn_count := ∅; stderr := [] |} in
  (result st ++ zmg_ipv6 ++ zmg_onion, stderr st).

End Filterbyasn.

(** ** Sorting *)

(** [list.sort] is stable: the result is the sorted arrangement of the list
    in which elements that compare equal keep their order. [before x y] says
    that [x] has to come strictly before [y]. *)
Fixpoint insert_by {A} (before : A -> A -> bool) (x : A) (l : list A) : list A :=
  match l with
  | [] => [x]
  | y :: l' => if before y x then y :: insert_by before x l' else x :: y :: l'
  end.

Definition sort_by {A} (before : A -> A -> bool) (l : list A) : list A :=
  foldr (insert_by before) [] l.

(** [(x['uptime'], x['lastsuccess'], x['ip']) < (y['uptime'], ...)] :
    the first components that differ decide. (Two NaN are compared as
    different objects; no NaN passes the uptime gate that precedes the
    sort.) *)
Definition availability_lt (x y : node) : bool :=
  if negb (Py.float_eqb (uptime x) (uptime y)) then Py.float_ltb (uptime x) (uptime y)
  else if negb (lastsuccess x =? lastsuccess y) then lastsuccess x <? lastsuccess y
  else String.ltb (ip x) (ip y).

(** [<] on the values of ['sortkey']. An [int] and a [str] cannot be ordered
    (a [TypeError]); the keys of two records of one network are of one type,
    see [parseline_well_keyed]. *)
Definition key_ltb (a b : key) : bool :=
  match a, b with
  | KInt m, KInt n => m <? n
  | KStr s, KStr t => String.ltb s t
  | _, _ => false
  end.

(** [(x['net'], x['sortkey']) < (y['net'], y['sortkey'])] *)
Definition address_lt (x y : node) : bool :=
  if negb (String.eqb (net_name (net x)) (net_name (net y)))
  then String.ltb (net_name (net x)) (net_name (net y))
  else if negb (bool_decide (sortkey x = sortkey y))
  then key_ltb (sortkey x) (sortkey y)
  else false.

(** ** main *)

(** The gates between parsing and sorting. *)
Definition quality_filter (zmg : list node) : list node :=
  (* Skip entries from suspicious hosts. *)
  let zmg := filter (fun x => ip x ∉ SUSPICIOUS_HOSTS) zmg in
  (* Enforce minimal number of blocks. *)
  let zmg := filter (fun x => MIN_BLOCKS <= blocks x) zmg in
  (* Require service bit 1. *)
  let zmg := filter (fun x => Z.land (service x) 1 = 1) zmg in
  (* Require at least 50% 30-day uptime. *)
  let zmg := filter (fun x => Py.float_ltb (Py.float_of_Z 50) (uptime x) = true) zmg in
  (* Require a known and recent user agent. *)
  filter (fun x => PATTERN_AGENT (Py.sub_space_hyphen (agent x)) = true) zmg.

(** ['%i' % n]. The conversion to decimal digits has the bound of [int]: it
    raises from [10 ^ 4300] on. The ports [parseline] returns are below it,
    see [parseline_port_bound]. *)
Definition format_int (n : Z) : string := NilZero.string_of_int (Z.to_int n).

(** The line printed for a record. *)
Definition format_node (x : node) : string :=
  if decide (net x = ipv6)
  then "[" +:+ ip x +:+ "]:" +:+ format_int (port x)
  else ip x +:+ ":" +:+ format_int (port x).

Section Main.

Variable resolve : string -> option Z.

(** The records [main] hands to [filtermultiport]: the parsed records that
    pass the gates, best availability first. *)
Definition candidates (parsed : list (option node)) : list node :=
  (* Skip entries with valid address. *)
  let zmg := omap id parsed in
  let zmg := quality_filter zmg in
  (* Sort by availability (and use last success as tie breaker) *)
  sort_by (fun x y => availability_lt y x) zmg.

(** The records [filterbyasn] returns, and what it wrote to the error
    stream. *)
Definition accepted (parsed : list (option node)) : list node * list string :=
  (* Filter out hosts with multiple bitcoin ports, these are likely abusive *)
  let zmg := filtermultiport (candidates parsed) in
  (* Look up ASNs and limit results, both per ASN and globally. *)
  filterbyasn resolve zmg MAX_SEEDS_PER_ASN NSEEDS.

(** The records [main] prints, in the order it prints them. *)
Definition select (parsed : list (option node)) : list node * list string :=
  let '(zmg, err) := accepted parsed in
  (* Sort the results by IP address (for deterministic output). *)
  (sort_by address_lt zmg, err).

(** [main] on the lines of the standard input: the lines printed and the
    text written to the error stream, or the exception that ends the run. *)
Definition main (lines : list string) : outcome (list string * list string) :=
  parsed ← mapM parseline lines;
  let '(zmg, err) := select parsed in
  Ok (format_node <$> zmg, err).

End Main.

(** * Vocabulary of the properties *)

(** ** Characters of a string *)

Fixpoint all_chars (p : ascii -> bool) (s : string) : bool :=
  match s with
  | EmptyString => true
  | String c s' => p c && all_chars p s'
  end.

Definition digit_run (s : string) : Prop :=
  all_chars Py.isdigit s = true /\ s <> EmptyString.

(** What a group [(\d{1,3})] holds. *)
Definition octet_run (s : string) : Prop :=
  digit_run s /\ (String.length s <= 3)%nat.

(** A port with more digits than [int] converts. *)
Definition long_port (p : string) : Prop :=
  Py.int_max_str_digits < Z.of_nat (String.length p).

(** ** Fields of a line *)

(** The field [i] of a line, where it exists. *)
Definition field_at (sline : list string) (i : nat) : string :=
  default EmptyString (sline !! i).

(** The conversions of the numeric fields of a line. *)
Definition conversions (sline : list string) : outcome (Py.float * Z * Z * Z * Z) :=
  uptime30 ← Py.float_of_string (Py.drop_last (field_at sline 7));
  lastsuccess ← Py.int (field_at sline 2);
  version ← Py.int (field_at sline 10);
  service ← Py.int16 (field_at sline 9);
  blocks ← Py.int (field_at sline 8);
  Ok (uptime30, lastsuccess, version, service, blocks).

(** ** Keys of a list of records *)

(** The number of records of [l] with the key [k]. *)
Definition occ (k : key) (l : list node) : nat :=
  length (filter (fun x => sortkey x = k) l).

(** The record an entry of [hist] contributes, when the records [s] are
    still to be added. *)
Definition pick (s : list node) (kv : key * list node) : option node :=
  if (length kv.2 =? 1)%nat && (occ kv.1 s =? 0)%nat then head kv.2 else None.

Definition hist_step (h : hist_t) (x : node) : hist_t := hist_append h (sortkey x) x.

(** ** Three-way comparisons

    The keys the script sorts by are tuples; a tuple of three-way comparisons
    is compared by [lex]. A comparison is [good] when it is antisymmetric and
    transitive in the sense of an ordered type. *)

Definition is_lt (c : comparison) : bool :=
  match c with
  | Lt => true
  | _ => false
  end.

Definition lexv (c1 c2 : comparison) : comparison :=
  match c1 with
  | Eq => c2
  | _ => c1
  end.

Definition lex {A} (c1 c2 : A -> A -> comparison) (x y : A) : comparison :=
  lexv (c1 x y) (c2 x y).

Definition on {A B} (f : A -> B) (c : B -> B -> comparison) (x y : A) : comparison :=
  c (f x) (f y).

Record good {A} (cmp : A -> A -> comparison) : Prop := Good {
  good_sym : forall x y, cmp y x = CompOpp (cmp x y);
  good_trans : forall c x y z, cmp x y = c -> cmp y z = c -> cmp x z = c;
}.

(** ** The sort keys as three-way comparisons *)

(** A total order on the floats that agrees with [<] and [==] away from NaN:
    the class of the value, then exponent and mantissa with the sign. *)
Definition float_class (x : Py.float) : Z :=
  match x with
  | S754_nan => -3
  | S754_infinity true => -2
  | S754_finite true _ _ => -1
  | S754_zero _ => 0
  | S754_finite false _ _ => 1
  | S754_infinity false => 2
  end.

Definition float_exp (x : Py.float) : Z :=
  match x with
  | S754_finite s _ e => if s then - e else e
  | _ => 0
  end.

Definition float_man (x : Py.float) : Z :=
  match x with
  | S754_finite s m _ => if s then Zneg m else Zpos m
  | _ => 0
  end.

Definition float_cmp : Py.float -> Py.float -> comparison :=
  lex (on float_class Z.compare) (lex (on float_exp Z.compare) (on float_man Z.compare)).

(** [(uptime, lastsuccess, ip)] *)
Definition availability_cmp : node -> node -> comparison :=
  lex (on uptime float_cmp) (lex (on lastsuccess Z.compare) (on ip String.compare)).

(** A total order on the keys that agrees with [<] on two keys of one type. *)
Definition key_tag (k : key) : Z := match k with KInt _ => 0 | KStr _ => 1 end.

Definition key_int (k : key) : Z := match k with KInt n => n | KStr _ => 0 end.

Definition key_str (k : key) : string :=
  match k with KInt _ => EmptyString | KStr s => s end.

Definition key_cmp : key -> key -> comparison :=
  lex (on key_tag Z.compare) (lex (on key_int Z.compare) (on key_str String.compare)).

(** [(net, sortkey)] *)
Definition address_cmp : node -> node -> comparison :=
  lex (on (fun x => net_name (net x)) String.compare) (on sortkey key_cmp).

(** The key of a record has the type that goes with its network. *)
Definition well_keyed (x : node) : Prop :=
  match net x, sortkey x with
  | ipv4, KInt _ | ipv6, KStr _ | onion, KStr _ => True
  | _, _ => False
  end.

(** The gates a record has passed. *)
Definition passes_gates (x : node) : Prop :=
  Z.land (service x) 1 = 1
  /\ Py.float_ltb (Py.float_of_Z 50) (uptime x) = true
  /\ MIN_BLOCKS <= blocks x
  /\ (ip x ∉ SUSPICIOUS_HOSTS)
  /\ PATTERN_AGENT (Py.sub_space_hyphen (agent x)) = true.

(** ** The loop of [filterbyasn] *)

Section FilterbyasnSpec.
Variable resolve : string -> option Z.
Variables max_per_asn max_total : Z.

(** The number of records of [l] whose lookup answers [asn]. *)
Definition resolved_to (asn : Z) (l : list node) : nat :=
  length (filter (fun x => resolve (ip x) = Some asn) l).

(** What the loop maintains: the counters count the accepted records of each
    origin, and both caps hold. *)
Record asn_inv (st : asn_state) : Prop := AsnInv {
  inv_count : forall asn n,
    asn_count st !! asn = Some n -> n = Z.of_nat (resolved_to asn (result st));
  inv_absent : forall asn,
    asn_count st !! asn = None -> resolved_to asn (result st) = 0%nat;
  inv_per_asn : forall asn, Z.of_nat (resolved_to asn (result st)) <= max_per_asn;
  inv_total : Z.of_nat (length (result st)) <= max_total;
  inv_resolved : Forall (fun x => resolve (ip x) <> None) (result st);
}.

End FilterbyasnSpec.

(** The IPv4 records that find room under the cap of their origin: a record
    is taken when its lookup answers and fewer than [max_per_asn] of the
    records [seen] before it have the same answer. *)
Fixpoint first_per_origin (resolve : string -> option Z) (max_per_asn : Z)
    (seen l : list node) : list node :=
  match l with
  | [] => []
  | x :: l' =>
      let rest := first_per_origin resolve max_per_asn (seen ++ [x]) l' in
      match resolve (ip x) with
      | Some asn =>
          if Z.of_nat (resolved_to resolve asn seen) <? max_per_asn
          then x :: rest else rest
      | None => rest
      end
  end.

(** The counters of the loop when the records [seen] have been looked up:
    an origin is counted up to the cap. *)
Definition counts_seen (resolve : string -> option Z) (max_per_asn : Z)
    (seen : list node) (st : asn_state) : Prop :=
  forall asn,
    match asn_count st !! asn with
    | Some n => n = Z.min (Z.of_nat (resolved_to resolve asn seen)) max_per_asn
    | None => resolved_to resolve asn seen = 0%nat
    end.

(** ** Samples *)

Module Sample.

(** A double quote, the delimiter of the user agent in a report. *)
Definition dq : string := String "034"%char EmptyString.

(** A line of thirteen fields: the address, the 30-day uptime and the block
    height vary; the quoted agent ends with a space, so that it is split into
    the fields 11 and 12. *)
Definition line (addr up height : string) : string :=
  addr +:+ " 1 1614000000 100.00% 100.00% 100.00% 100.00% " +:+ up +:+ " "
  +:+ height +:+ " 0000000d 70015 " +:+ dq +:+ "/ZMGCore:2.2.0/ " +:+ dq.

(** A line of twelve fields: the quoted agent is one field. *)
Definition line12 (addr : string) : string :=
  addr +:+ " 1 1614000000 100.00% 100.00% 100.00% 100.00% 100.00% 700000"
  +:+ " 0000000d 70015 " +:+ dq +:+ "/ZMGCore:2.2.0/" +:+ dq.

Definition good : string := line "1.2.3.4:8333" "100.00%" "700000".

(** The uptime field is not a number. *)
Definition bad_uptime : string := line "5.6.7.8:8333" "n/a" "700000".

(** An address with a port of [n] digits. *)
Definition with_port (host : string) (n : positive) : string :=
  host +:+ ":" +:+ Pos.iter (String "1"%char) EmptyString n.

End Sample.

(** Sample records. *)
Module SampleNode.

Definition up100 : Py.float := Py.float_of_Z 100.

Definition v4 (addr : string) (n : Z) : node :=
  {| net := ipv4; ip := addr; port := 8333; ipnum := Some n; uptime := up100;
     lastsuccess := 1614000000; version := 70015; agent := "/ZMGCore:2.2.0/";
     service := 13; blocks := 700000; sortkey := KInt n |}.

Definition v6 (addr : string) : node :=
  {| net := ipv6; ip := addr; port := 8333; ipnum := None; uptime := up100;
     lastsuccess := 1614000000; version := 70015; agent := "/ZMGCore:2.2.0/";
     service := 13; blocks := 700000; sortkey := KStr addr |}.

Definition a : node := v4 "1.2.3.4" 16909060.
Definition b : node := v4 "1.2.3.5" 16909061.
Definition c : node := v4 "1.2.3.6" 16909062.
Definition d : node := v6 "2001:db8::1".

End SampleNode.

(** * Properties *)

(** ** The built-ins on runs of digits *)

Lemma span_all p s d r : Py.span p s = (d, r) -> all_chars p d = true.
Proof.
  revert d r. induction s as [|c s IH]; intros d r; simpl.
  - intros [= <- <-]. done.
  - destruct (p c) eqn:Hc.
    + destruct (Py.span p s) as [d' r'] eqn:Hs. intros [= <- <-].
      simpl. rewrite Hc. simpl. eauto.
    + intros [= <- <-]. done.
Qed.

Lemma isdigit_range c : Py.isdigit c = true -> 48 <= Py.ord c <= 57.
Proof. unfold Py.isdigit. lia. Qed.

Lemma isdigit_not_space c : Py.isdigit c = true -> Py.isblank c = false.
Proof. intros H%isdigit_range. unfold Py.isblank. lia. Qed.

Lemma isdigit_not_char c (k : ascii) :
  Py.isdigit c = true -> Py.isdigit k = false -> Ascii.eqb c k = false.
Proof.
  intros Hc Hk. destruct (Ascii.eqb_spec c k) as [->|]; congruence.
Qed.

Lemma isdigit_value c :
  Py.isdigit c = true -> exists d, Py.digit_val c = Some d /\ 0 <= d < 10.
Proof.
  intros H. unfold Py.digit_val. rewrite H.
  apply isdigit_range in H. eexists; split; [done | lia].
Qed.

Lemma lstrip_digits s : all_chars Py.isdigit s = true -> Py.lstrip s = s.
Proof.
  destruct s as [|c s]; simpl; [done|].
  intros [Hc _]%andb_true_iff. by rewrite (isdigit_not_space c).
Qed.

Lemma rstrip_digits s : all_chars Py.isdigit s = true -> Py.rstrip s = s.
Proof.
  induction s as [|c s IH]; simpl; [done|].
  intros [Hc Hs]%andb_true_iff. rewrite (IH Hs), (isdigit_not_space c Hc).
  by destruct s.
Qed.

Lemma int_digits_total s :
  all_chars Py.isdigit s = true ->
  forall acc prev,
    0 <= acc ->
    (s <> EmptyString \/ exists p, prev = Some p /\ Ascii.eqb p "_"%char = false) ->
    exists n, Py.int_digits 10 acc prev s = Some n
              /\ 0 <= n < (acc + 1) * 10 ^ Z.of_nat (String.length s).
Proof.
  induction s as [|c s IH]; intros Hall acc prev Hacc Hne.
  - destruct Hne as [|(p & -> & Hp)]; [done|]. simpl. rewrite Hp.
    eexists; split; [done|]. lia.
  - simpl in Hall. apply andb_true_iff in Hall as [Hc Hs].
    cbn [Py.int_digits String.length].
    rewrite (isdigit_not_char c "_"%char Hc eq_refl).
    destruct (isdigit_value c Hc) as (d & -> & Hd).
    destruct (Z.ltb_spec d 10); [|lia].
    destruct (IH Hs (acc * 10 + d) (Some c)) as (n & Hn & Hlo & Hhi); [lia| |].
    { right. eexists; split; [done|]. by apply isdigit_not_char. }
    exists n. split; [done|]. split; [done|].
    rewrite Nat2Z.inj_succ, Z.pow_succ_r by lia.
    assert (0 < 10 ^ Z.of_nat (String.length s)) by (apply Z.pow_pos_nonneg; lia).
    nia.
Qed.

Lemma count_digits_run s :
  all_chars Py.isdigit s = true -> Py.count_digits s = Z.of_nat (String.length s).
Proof.
  induction s as [|c s IH]; [done|]. intros [Hc Hs]%andb_true_iff.
  cbn [Py.count_digits String.length].
  rewrite (isdigit_not_char c "_"%char Hc eq_refl), IH by done. lia.
Qed.

(** [int] on a run of digits: a value that is not negative when the run has
    at most [int_max_str_digits] digits, [ValueError] when it has more. *)
Lemma int_run s :
  all_chars Py.isdigit s = true -> s <> EmptyString ->
  exists n, 0 <= n < 10 ^ Z.of_nat (String.length s)
    /\ Py.int s = if Z.of_nat (String.length s) <=? Py.int_max_str_digits
                  then Ok n else Raise ValueError.
Proof.
  intros Hall Hne. unfold Py.int, Py.strip.
  rewrite lstrip_digits, rstrip_digits by done.
  destruct s as [|c s]; [done|]. pose proof Hall as Hall'. simpl in Hall.
  apply andb_true_iff in Hall as [Hc Hs]. unfold Py.take_sign.
  rewrite (isdigit_not_char c "-"%char Hc eq_refl),
    (isdigit_not_char c "+"%char Hc eq_refl).
  rewrite (count_digits_run _ Hall').
  destruct (int_digits_total (String c s)) with (acc := 0) (prev := @None ascii)
    as (n & -> & Hn); [done | done | by left |].
  exists n. split; [lia|]. cbn [mbind option_bind].
  by destruct (_ <=? _).
Qed.

(** [int] does not raise on a run of at most [int_max_str_digits] digits. *)
Lemma int_of_digits s :
  all_chars Py.isdigit s = true -> s <> EmptyString ->
  Z.of_nat (String.length s) <= Py.int_max_str_digits ->
  exists n, Py.int s = Ok n /\ 0 <= n.
Proof.
  intros Hall Hne Hlen. destruct (int_run s Hall Hne) as (n & Hn & ->).
  destruct (Z.leb_spec (Z.of_nat (String.length s)) Py.int_max_str_digits); [|lia].
  exists n. split; [done|lia].
Qed.

(** What [int] returns on a run of digits has a decimal form of at most
    [int_max_str_digits] digits. *)
Lemma int_run_bound s n :
  all_chars Py.isdigit s = true -> s <> EmptyString -> Py.int s = Ok n ->
  0 <= n < 10 ^ Py.int_max_str_digits.
Proof.
  intros Hall Hne. destruct (int_run s Hall Hne) as (k & Hk & ->).
  destruct (Z.leb_spec (Z.of_nat (String.length s)) Py.int_max_str_digits) as [Hle|];
    [|done].
  intros [= <-]. split; [lia|]. eapply Z.lt_le_trans; [apply Hk|].
  apply Z.pow_le_mono_r; lia.
Qed.

Lemma int_run_nonneg s n :
  all_chars Py.isdigit s = true -> s <> EmptyString -> Py.int s = Ok n -> 0 <= n.
Proof. intros Hall Hne Hn. by apply (int_run_bound s n Hall Hne) in Hn as [? _]. Qed.

(** On a run of digits [int] raises for one reason only. *)
Lemma int_run_raise p e : digit_run p -> Py.int p = Raise e -> e = ValueError /\ long_port p.
Proof.
  intros [Hall Hne]. destruct (int_run p Hall Hne) as (k & Hk & ->).
  unfold long_port.
  destruct (Z.leb_spec (Z.of_nat (String.length p)) Py.int_max_str_digits); [done|].
  by intros [= <-].
Qed.

Lemma int_long_port p : digit_run p -> long_port p -> Py.int p = Raise ValueError.
Proof.
  intros [Hall Hne] Hlong. destruct (int_run p Hall Hne) as (k & Hk & ->).
  unfold long_port in Hlong.
  destruct (Z.leb_spec (Z.of_nat (String.length p)) Py.int_max_str_digits); [lia|done].
Qed.

Lemma int_of_octet s : octet_run s -> exists n, Py.int s = Ok n /\ 0 <= n.
Proof.
  intros [[Hall Hne] Hlen]. apply int_of_digits; [done..|].
  unfold Py.int_max_str_digits. lia.
Qed.

(** ** The groups of a match *)

Lemma span_digits_run d r s :
  Py.span_digits s = (d, r) -> (1 <=? String.length d)%nat = true -> digit_run d.
Proof.
  intros Hs Hl. split; [by eapply span_all|]. by destruct d.
Qed.

Lemma octet_then_run sep s d r : octet_then sep s = Some (d, r) -> octet_run d.
Proof.
  unfold octet_then. destruct (Py.span_digits s) as [d' r'] eqn:Hs.
  destruct (_ && _) eqn:Hl; [|done].
  destruct (literal sep r'); simpl; [|done]. intros [= <- <-].
  apply andb_true_iff in Hl as [Hl Hu]. split; [by eapply span_digits_run|].
  by apply Nat.leb_le.
Qed.

Lemma port_suffix_run s p : port_suffix s = Some p -> digit_run p.
Proof.
  unfold port_suffix. destruct (literal ":" s) as [r|]; simpl; [|done].
  destruct (Py.span_digits r) as [p' e] eqn:Hs.
  destruct (_ && _) eqn:Hl; [|done]. intros [= <-].
  apply andb_true_iff in Hl as [Hl _]. by eapply span_digits_run.
Qed.

Lemma PATTERN_IPV4_groups s m :
  PATTERN_IPV4 s = Some m ->
  exists a b c d p,
    m = [a +:+ "." +:+ b +:+ "." +:+ c +:+ "." +:+ d; a; b; c; d; p]
    /\ octet_run a /\ octet_run b /\ octet_run c /\ octet_run d /\ digit_run p.
Proof.
  unfold PATTERN_IPV4. intros H.
  destruct (octet_then "." s) as [[a r1]|] eqn:Ha; simpl in H; [|done].
  destruct (octet_then "." r1) as [[b r2]|] eqn:Hb; simpl in H; [|done].
  destruct (octet_then "." r2) as [[c r3]|] eqn:Hc; simpl in H; [|done].
  destruct (octet_then "" r3) as [[d r4]|] eqn:Hd; simpl in H; [|done].
  destruct (port_suffix r4) as [p|] eqn:Hp; simpl in H; [|done].
  injection H as <-. exists a, b, c, d, p.
  split; [done|].
  split; [eapply octet_then_run, Ha|].
  split; [eapply octet_then_run, Hb|].
  split; [eapply octet_then_run, Hc|].
  split; [eapply octet_then_run, Hd|].
  eapply port_suffix_run, Hp.
Qed.

Lemma PATTERN_IPV6_groups s m :
  PATTERN_IPV6 s = Some m -> exists h p, m = [h; p] /\ digit_run p.
Proof.
  unfold PATTERN_IPV6. intros (r0 & _ & H)%bind_Some.
  destruct (Py.span ipv6_char r0) as [h r1].
  destruct (1 <=? String.length h)%nat; [|done].
  apply bind_Some in H as (r2 & _ & H).
  apply bind_Some in H as (p & Hp & [= <-]).
  eauto using port_suffix_run.
Qed.

Lemma PATTERN_ONION_groups s m :
  PATTERN_ONION s = Some m -> exists h p, m = [h; p] /\ digit_run p.
Proof.
  unfold PATTERN_ONION. intros H.
  destruct (Py.span base32_char s) as [h r1].
  destruct (String.length h =? 16)%nat; [|done].
  apply bind_Some in H as (r2 & _ & H).
  apply bind_Some in H as (p & Hp & [= <-]).
  eauto using port_suffix_run.
Qed.

(** A subject that starts with a bracket is no IPv4 address. *)
Lemma PATTERN_IPV6_not_IPV4 s m : PATTERN_IPV6 s = Some m -> PATTERN_IPV4 s = None.
Proof.
  unfold PATTERN_IPV6. intros (r0 & H & _)%bind_Some.
  destruct s as [|c s]; [done|]. cbn [literal] in H.
  destruct (Ascii.eqb_spec "["%char c) as [<-|]; [|done]. done.
Qed.

(** ** Where the address part raises *)

(** The octets have at most three digits: their loop never raises. *)
Lemma octets_total m range ip :
  (forall i, i ∈ range -> octet_run (group m (i + 2))) ->
  exists r, octets m range ip = Ok r.
Proof.
  revert ip. induction range as [|i range IH]; intros ip Hm; simpl; [eauto|].
  destruct (int_of_octet (group m (i + 2))) as (o & -> & _); [apply Hm; by left|].
  simpl.
  destruct (_ || _); [eauto|]. apply IH. intros j Hj. apply Hm. by right.
Qed.

Lemma PATTERN_IPV4_octets s m :
  PATTERN_IPV4 s = Some m ->
  forall i, i ∈ [0; 1; 2; 3]%nat -> octet_run (group m (i + 2)).
Proof.
  intros (a & b & c & d & p & -> & Ha & Hb & Hc & Hd & Hp)%PATTERN_IPV4_groups i Hi.
  repeat (apply elem_of_cons in Hi as [->|Hi]; [done|]).
  exfalso. by apply elem_of_nil in Hi.
Qed.

(** The address part raises on a port of too many digits, and on nothing
    else. *)
Lemma parse_address_raise field e :
  parse_address field = Raise e ->
  e = ValueError
  /\ exists m,
       (PATTERN_IPV4 field = Some m /\ long_port (group m 6))
       \/ (PATTERN_IPV6 field = Some m /\ long_port (group m 2))
       \/ (PATTERN_ONION field = Some m /\ long_port (group m 2)).
Proof.
  unfold parse_address.
  destruct (PATTERN_IPV4 field) as [m|] eqn:H4.
  - destruct (octets_total m [0; 1; 2; 3]%nat 0 (PATTERN_IPV4_octets _ _ H4)) as [r ->].
    cbn [mbind outcome_bind]. destruct r as [n|]; [|done]. destruct (n =? 0); [done|].
    destruct (Py.int (group m 6)) as [q|e'] eqn:Hq; cbn [mbind outcome_bind]; [done|].
    intros [= <-].
    apply PATTERN_IPV4_groups in H4 as Hg.
    destruct Hg as (a & b & c & d & p & Hm & _ & _ & _ & _ & Hp).
    assert (group m 6 = p) as Hgp by (by rewrite Hm).
    rewrite Hgp in Hq. apply (int_run_raise p e' Hp) in Hq as [-> Hlong].
    split; [done|]. exists m. left. by rewrite Hgp.
  - destruct (PATTERN_IPV6 field) as [m|] eqn:H6.
    + destruct (bool_decide _); [done|].
      destruct (Py.int (group m 2)) as [q|e'] eqn:Hq; cbn [mbind outcome_bind]; [done|].
      intros [= <-].
      apply PATTERN_IPV6_groups in H6 as Hg. destruct Hg as (h & p & Hm & Hp).
      assert (group m 2 = p) as Hgp by (by rewrite Hm).
      rewrite Hgp in Hq. apply (int_run_raise p e' Hp) in Hq as [-> Hlong].
      split; [done|]. exists m. right; left. by rewrite Hgp.
    + destruct (PATTERN_ONION field) as [m|] eqn:Ho; [|done].
      destruct (Py.int (group m 2)) as [q|e'] eqn:Hq; cbn [mbind outcome_bind]; [done|].
      intros [= <-].
      apply PATTERN_ONION_groups in Ho as Hg. destruct Hg as (h & p & Hm & Hp).
      assert (group m 2 = p) as Hgp by (by rewrite Hm).
      rewrite Hgp in Hq. apply (int_run_raise p e' Hp) in Hq as [-> Hlong].
      split; [done|]. exists m. right; right. by rewrite Hgp.
Qed.

(** ** Reasoning in the [outcome] monad *)

Lemma bind_Ok {A B} (f : A -> outcome B) (m : outcome A) b :
  m ≫= f = Ok b <-> exists a, m = Ok a /\ f a = Ok b.
Proof.
  destruct m as [a|e]; simpl; split.
  - eauto.
  - by intros (? & [= <-] & ?).
  - done.
  - by intros (? & ? & ?).
Qed.

Lemma bind_Raise {A B} (f : A -> outcome B) (m : outcome A) e :
  m = Raise e -> m ≫= f = Raise e.
Proof. by intros ->. Qed.

Lemma mapM_raises {A B} (f : A -> outcome B) (l : list A) x :
  x ∈ l -> raises (f x) -> raises (mapM f l).
Proof.
  induction l as [|y l IH]; [by intros ?%elem_of_nil|].
  intros [->|Hx]%elem_of_cons Hr; simpl.
  - by destruct (f y).
  - destruct (f y); simpl; [|done].
    specialize (IH Hx Hr). by destruct (mapM f l).
Qed.

Lemma value_error_raise {A} (o : option A) e :
  Py.value_error o = Raise e -> e = ValueError.
Proof. destruct o; simpl; congruence. Qed.

Lemma int_raise s e : Py.int s = Raise e -> e = ValueError.
Proof.
  unfold Py.int. destruct (Py.take_sign _). apply value_error_raise.
Qed.

Lemma int16_raise s e : Py.int16 s = Raise e -> e = ValueError.
Proof.
  unfold Py.int16. destruct (Py.take_sign _). apply value_error_raise.
Qed.

Lemma float_raise s e : Py.float_of_string s = Raise e -> e = ValueError.
Proof. apply value_error_raise. Qed.

Lemma index_field sline i :
  (i < length sline)%nat -> Py.index sline i = Ok (field_at sline i).
Proof.
  intros [x Hx]%lookup_lt_is_Some_2. unfold Py.index, field_at. by rewrite Hx.
Qed.

Lemma index_out sline i :
  (length sline <= i)%nat -> @Py.index string sline i = Raise IndexError.
Proof. intros H%lookup_ge_None_2. unfold Py.index. by rewrite H. Qed.

(** ** The user agent *)

(** With twelve fields the test [len(sline) > 11] holds and [sline[12]] does
    not exist. *)
Lemma parse_agent_twelve sline :
  length sline = 12%nat -> parse_agent sline = Raise IndexError.
Proof.
  intros Hl. unfold parse_agent. rewrite Hl. simpl.
  rewrite (index_field sline 11), (index_out sline 12) by lia. done.
Qed.

(** With eleven fields the other branch runs and [sline[11]] does not exist. *)
Lemma parse_agent_eleven sline :
  length sline = 11%nat -> parse_agent sline = Raise IndexError.
Proof.
  intros Hl. unfold parse_agent. rewrite Hl. simpl.
  rewrite (index_out sline 11) by lia. done.
Qed.

Lemma parse_agent_long sline :
  (13 <= length sline)%nat ->
  parse_agent sline
  = Ok (Py.drop_first (field_at sline 11) +:+ Py.drop_last (field_at sline 12)).
Proof.
  intros Hl. unfold parse_agent.
  destruct (Nat.ltb_spec 11 (length sline)); [|lia].
  rewrite !index_field by lia. done.
Qed.

Lemma parse_agent_Ok sline a :
  parse_agent sline = Ok a ->
  (13 <= length sline)%nat
  /\ a = Py.drop_first (field_at sline 11) +:+ Py.drop_last (field_at sline 12).
Proof.
  intros H. destruct (decide (13 <= length sline)%nat) as [Hl|Hl].
  - rewrite parse_agent_long in H by done. by injection H as <-.
  - unfold parse_agent in H.
    destruct (Nat.ltb_spec 11 (length sline)).
    + rewrite (index_field sline 11), (index_out sline 12) in H by lia. done.
    + rewrite (index_out sline 11) in H by lia. done.
Qed.

(** ** What [parseline] returns *)

Lemma conversions_raise sline e : conversions sline = Raise e -> e = ValueError.
Proof.
  unfold conversions.
  destruct (Py.float_of_string _) eqn:H1; simpl; [|intros [= <-]; by eapply float_raise].
  destruct (Py.int (field_at sline 2)) eqn:H2; simpl; [|intros [= <-]; by eapply int_raise].
  destruct (Py.int (field_at sline 10)) eqn:H3; simpl; [|intros [= <-]; by eapply int_raise].
  destruct (Py.int16 _) eqn:H4; simpl; [|intros [= <-]; by eapply int16_raise].
  destruct (Py.int (field_at sline 8)) eqn:H5; simpl; [done|intros [= <-]; by eapply int_raise].
Qed.

(** [parseline] on a line of thirteen fields or more, in one equation. *)
Lemma parseline_long line :
  let sline := Py.split line in
  (13 <= length sline)%nat ->
  parseline line =
    a ← parse_address (field_at sline 0);
    match a with
    | None => Ok None
    | Some (net, zmgtr, port, ip, sortkey) =>
        '(uptime30, lastsuccess, version, service, blocks) ← conversions sline;
        Ok (Some {| net := net; ip := zmgtr; port := port; ipnum := ip;
                    uptime := uptime30; lastsuccess := lastsuccess;
                    version := version;
                    agent := Py.drop_first (field_at sline 11)
                             +:+ Py.drop_last (field_at sline 12);
                    service := service; blocks := blocks; sortkey := sortkey |})
    end.
Proof.
  intros sline Hl. unfold parseline. fold sline.
  destruct (Nat.ltb_spec (length sline) 11); [lia|].
  repeat rewrite index_field by lia. rewrite parse_agent_long by lia.
  cbn [mbind outcome_bind].
  destruct (parse_address (field_at sline 0)) as [[[[[[n z] p] i] k]|]|e]; [|done..].
  unfold str_eq_int, conversions. cbn [mbind outcome_bind].
  destruct (Py.float_of_string _); [|done]. cbn [mbind outcome_bind].
  destruct (Py.int (field_at sline 2)); [|done]. cbn [mbind outcome_bind].
  destruct (Py.int (field_at sline 10)); [|done]. cbn [mbind outcome_bind].
  destruct (Py.int16 _); [|done]. cbn [mbind outcome_bind].
  destruct (Py.int (field_at sline 8)); done.
Qed.

(** A line with eleven or twelve fields is never accepted. *)
Lemma parseline_Some_long line x :
  parseline line = Ok (Some x) -> (13 <= length (Py.split line))%nat.
Proof.
  unfold parseline. set (sline := Py.split line).
  destruct (Nat.ltb_spec (length sline) 11); [done|].
  repeat rewrite index_field by lia. cbn [mbind outcome_bind].
  destruct (parse_address (field_at sline 0)) as [[[[[[n z] p] i] k]|]|e]; [|done..].
  unfold str_eq_int. cbn [mbind outcome_bind].
  destruct (Py.float_of_string _); [|done]. cbn [mbind outcome_bind].
  destruct (Py.int (field_at sline 2)); [|done]. cbn [mbind outcome_bind].
  destruct (Py.int (field_at sline 10)); [|done]. cbn [mbind outcome_bind].
  destruct (parse_agent sline) as [ag|] eqn:Ha; [|done].
  by apply parse_agent_Ok in Ha as [? _].
Qed.

(** ** C10: short lines *)

Lemma parseline_short line :
  (length (Py.split line) < 11)%nat -> parseline line = Ok None.
Proof.
  intros Hl. unfold parseline.
  by destruct (Nat.ltb_spec (length (Py.split line)) 11); [|lia].
Qed.

(** C10. A line that splits into fewer than eleven fields is rejected:
    [parseline] returns [None], without raising. *)
Theorem parseline_short_line line :
  (length (Py.split line) < 11)%nat -> parseline line = Ok None.
Proof.
  intros Hl. unfold parseline.
  destruct (Nat.ltb_spec (length (Py.split line)) 11) as [_|Hge].
  - reflexivity.
  - lia.
Qed.

Lemma parseline_short_line_witness :
  parseline "1.2.3.4:8333 1 1614000000 100.00% 700000" = Ok None.
Proof. apply parseline_short_line. vm_compute. lia. Defined.

(** ** C9: the unspecified addresses *)

(** C9. A line whose first field is an IPv4 address with the number 0, or the
    bracketed IPv6 address [::], is rejected: [parseline] returns [None]. *)
Theorem parseline_unspecified_address line field rest m :
  Py.split line = field :: rest ->
  (PATTERN_IPV4 field = Some m /\ octets m [0; 1; 2; 3]%nat 0 = Ok (Some 0))
  \/ (PATTERN_IPV6 field = Some m /\ group m 1 = "::") ->
  parseline line = Ok None.
Proof.
  intros Hs Hm. unfold parseline. rewrite Hs.
  destruct (_ <? _)%nat; [done|].
  change (Py.index (field :: rest) 0) with (Ok field). cbn [mbind outcome_bind].
  assert (parse_address field = Ok None) as ->; [|done].
  unfold parse_address. destruct Hm as [[-> ->]|[H6 Hg]]; [done|].
  rewrite (PATTERN_IPV6_not_IPV4 _ _ H6), H6, Hg. done.
Qed.

Lemma parseline_unspecified_address_witness :
  parseline (Sample.line "0.0.0.0:8333" "100.00%" "700000") = Ok None
  /\ parseline (Sample.line "[::]:8333" "100.00%" "700000") = Ok None.
Proof.
  split.
  - eapply (parseline_unspecified_address _ "0.0.0.0:8333" _
              ["0.0.0.0"; "0"; "0"; "0"; "0"; "8333"]).
    + vm_compute. reflexivity.
    + left. split; vm_compute; reflexivity.
  - eapply (parseline_unspecified_address _ "[::]:8333" _ ["::"; "8333"]).
    + vm_compute. reflexivity.
    + right. split; vm_compute; reflexivity.
Defined.

(** ** C5: the user agent *)

(** For an accepted line the agent is field 11 without its first character
    followed by field 12 without its last character. *)
Lemma parseline_agent line x :
  parseline line = Ok (Some x) ->
  let sline := Py.split line in
  (13 <= length sline)%nat
  /\ agent x = Py.drop_first (field_at sline 11) +:+ Py.drop_last (field_at sline 12).
Proof.
  intros H sline. pose proof (parseline_Some_long _ _ H) as Hl. split; [done|].
  rewrite parseline_long in H by done. fold sline in H.
  apply bind_Ok in H as ([[[[[n z] p] i] k]|] & _ & H); [|done].
  apply bind_Ok in H as ([[[[u l] v] s] b] & _ & [= <-]). done.
Qed.

(** No line of exactly twelve fields is accepted. *)
Lemma parseline_twelve_fields line x :
  length (Py.split line) = 12%nat -> parseline line <> Ok (Some x).
Proof. intros Hl H%parseline_Some_long. lia. Qed.

(** C5. On a well-formed line of exactly twelve fields [parseline] raises
    [IndexError]: the test [len(sline) > 11] sends the line to the branch that
    reads field 12, and no record is built. *)
Theorem parseline_twelve_fields_raises :
  length (Py.split (Sample.line12 "1.2.3.4:8333")) = 12%nat
  /\ parseline (Sample.line12 "1.2.3.4:8333") = Raise IndexError.
Proof. split; vm_compute; reflexivity. Qed.

(** ** C2: what a line can do *)

(** C2, as the code has it. A line with fewer than eleven fields, or whose
    first field is no acceptable address, is rejected without an error. The
    address part raises nothing but [ValueError], and only on a port of more
    digits than [int] converts; [parseline] then raises it. On a line of
    thirteen fields or more with an acceptable address, [parseline] builds a
    record when every numeric field converts, and raises [ValueError] when
    one does not. [main] does not catch what [parseline] raises: the run ends
    with the exception. *)
Theorem parseline_outcomes line :
  let sline := Py.split line in
  ((length sline < 11)%nat -> parseline line = Ok None)
  /\ (forall e, parse_address (field_at sline 0) = Raise e ->
        e = ValueError
        /\ ((11 <= length sline)%nat -> parseline line = Raise ValueError)
        /\ exists m,
             (PATTERN_IPV4 (field_at sline 0) = Some m /\ long_port (group m 6))
             \/ (PATTERN_IPV6 (field_at sline 0) = Some m /\ long_port (group m 2))
             \/ (PATTERN_ONION (field_at sline 0) = Some m /\ long_port (group m 2)))
  /\ ((11 <= length sline)%nat ->
      parse_address (field_at sline 0) = Ok None -> parseline line = Ok None)
  /\ ((13 <= length sline)%nat ->
      forall a, parse_address (field_at sline 0) = Ok (Some a) ->
        (forall c, conversions sline = Ok c -> exists x, parseline line = Ok (Some x))
        /\ (forall e, conversions sline = Raise e -> parseline line = Raise ValueError))
  /\ (forall resolve lines,
        line ∈ lines -> raises (parseline line) -> raises (main resolve lines)).
Proof.
  intros sline. split; [apply parseline_short|]. split; [|split; [|split]].
  - intros e Ha. destruct (parse_address_raise _ _ Ha) as [-> Hm].
    split; [done|]. split; [|done]. intros Hl. unfold parseline. fold sline.
    destruct (Nat.ltb_spec (length sline) 11); [lia|].
    rewrite (index_field sline 0) by lia. cbn [mbind outcome_bind].
    by rewrite Ha.
  - intros Hl Ha. unfold parseline. fold sline.
    destruct (Nat.ltb_spec (length sline) 11); [done|].
    rewrite (index_field sline 0) by lia. cbn [mbind outcome_bind].
    by rewrite Ha.
  - intros Hl [[[[n z] p] i] k] Ha. rewrite parseline_long by done. fold sline.
    rewrite Ha. cbn [mbind outcome_bind]. split.
    + intros [[[[u l] v] s] b] ->. cbn [mbind outcome_bind]. eauto.
    + intros e He. rewrite (conversions_raise _ _ He) in He. by rewrite He.
  - intros resolve lines Hin Hr. unfold main.
    pose proof (mapM_raises parseline lines line Hin Hr) as Hm.
    by destruct (mapM parseline lines).
Qed.

(** C2, the counterexample: a line with a 30-day uptime that is not a number
    makes [parseline] raise, and [main] with it. *)
Lemma parseline_bad_uptime_raises :
  parseline Sample.bad_uptime = Raise ValueError
  /\ main (fun _ => Some 64500) [Sample.good; Sample.bad_uptime] = Raise ValueError.
Proof. split; vm_compute; reflexivity. Qed.

(** A port of 4300 digits is converted; a port of 4301 digits makes
    [parseline] raise. *)
Example parseline_long_port_raises :
  (exists x, parseline (Sample.line (Sample.with_port "1.2.3.4" 4300) "100.00%" "700000")
             = Ok (Some x))
  /\ parseline (Sample.line (Sample.with_port "1.2.3.4" 4301) "100.00%" "700000")
     = Raise ValueError.
Proof.
  split.
  - eexists. vm_compute. reflexivity.
  - vm_compute. reflexivity.
Qed.

(** ** filtermultiport keeps the records with a key of their own *)

Lemma filter_ext_in {A} (P Q : A -> Prop) `{!forall x, Decision (P x)}
    `{!forall x, Decision (Q x)} (l : list A) :
  (forall x, x ∈ l -> P x <-> Q x) -> filter P l = filter Q l.
Proof.
  induction l as [|a l IH]; intros Hext; [done|].
  rewrite !filter_cons, IH by (intros; apply Hext; by right).
  apply decide_ext, Hext. by left.
Qed.

Lemma occ_cons k x l :
  occ k (x :: l) = if decide (sortkey x = k) then S (occ k l) else occ k l.
Proof. unfold occ. rewrite filter_cons. by case_decide. Qed.

Lemma occ_app k l1 l2 : occ k (l1 ++ l2) = (occ k l1 + occ k l2)%nat.
Proof. unfold occ. by rewrite filter_app, length_app. Qed.

Lemma occ_elem_of k x l : x ∈ l -> sortkey x = k -> (1 <= occ k l)%nat.
Proof.
  intros (l1 & l2 & ->)%list_elem_of_split Hk.
  rewrite occ_app, occ_cons, decide_True by done. lia.
Qed.

Lemma occ_sublist k l1 l2 : l1 `sublist_of` l2 -> (occ k l1 <= occ k l2)%nat.
Proof.
  induction 1 as [|x l1 l2 _ IH|x l1 l2 _ IH]; [done|..];
    rewrite ?occ_cons; repeat case_decide; lia.
Qed.

(** Two positions with one key: the key occurs twice. *)
Lemma occ_two_positions l i j x y :
  (i < j)%nat -> l !! i = Some x -> l !! j = Some y ->
  sortkey x = sortkey y -> (2 <= occ (sortkey x) l)%nat.
Proof.
  intros Hij Hi Hj Hk.
  rewrite <- (take_drop_middle l i x Hi), occ_app, occ_cons, decide_True by done.
  assert (y ∈ drop (S i) l) as Hy.
  { apply list_elem_of_lookup. exists (j - S i)%nat.
    rewrite lookup_drop. replace (S i + (j - S i))%nat with j by lia. done. }
  pose proof (occ_elem_of (sortkey x) y _ Hy (eq_sym Hk)). lia.
Qed.

Lemma hist_append_keys_in h k x : k ∈ h.*1 -> (hist_append h k x).*1 = h.*1.
Proof.
  induction h as [|[k' v] h IH]; csimpl; [by intros ?%elem_of_nil|].
  intros Hin. case_decide; [done|]. csimpl. f_equal. apply IH.
  apply elem_of_cons in Hin as [->|]; done.
Qed.

Lemma hist_append_fresh h k x : k ∉ h.*1 -> hist_append h k x = h ++ [(k, [x])].
Proof.
  induction h as [|[k' v] h IH]; csimpl; [done|].
  intros Hin. apply not_elem_of_cons in Hin as [? ?].
  rewrite decide_False by done. by rewrite IH.
Qed.

Lemma hist_append_nonempty h k x :
  Forall (fun kv => kv.2 <> []) h -> Forall (fun kv => kv.2 <> []) (hist_append h k x).
Proof.
  induction 1 as [|[k' v] h Hv Hh IH]; csimpl.
  - by repeat constructor.
  - case_decide; constructor; csimpl in *; try done. by destruct v.
Qed.

Lemma hist_append_NoDup h k x : NoDup h.*1 -> NoDup (hist_append h k x).*1.
Proof.
  intros Hh. destruct (decide (k ∈ h.*1)) as [Hin|Hin].
  - by rewrite hist_append_keys_in.
  - rewrite hist_append_fresh, fmap_app by done. csimpl.
    apply NoDup_app. split; [done|]. split; [|apply NoDup_singleton].
    intros k' Hk' ->%list_elem_of_singleton. done.
Qed.

Lemma omap_cons_eq {A B} (f : A -> option B) x l :
  omap f (x :: l) = match f x with Some y => y :: omap f l | None => omap f l end.
Proof. done. Qed.

Lemma pick_other s x k v :
  sortkey x <> k -> pick (x :: s) (k, v) = pick s (k, v).
Proof. intros Hk. unfold pick. simpl. by rewrite occ_cons, decide_False. Qed.

Lemma pick_pending s x v : pick (x :: s) (sortkey x, v) = None.
Proof.
  unfold pick. simpl. rewrite occ_cons, decide_True by done.
  by rewrite andb_false_r.
Qed.

Lemma pick_grown s x k v : v <> [] -> pick s (k, v ++ [x]) = None.
Proof.
  intros Hv. unfold pick. simpl. rewrite length_app. simpl.
  destruct v as [|y v]; [done|]. simpl.
  by replace (length v + 1)%nat with (S (length v)) by lia.
Qed.

Lemma pick_fresh s x h :
  sortkey x ∉ h.*1 -> omap (pick (x :: s)) h = omap (pick s) h.
Proof.
  induction h as [|[k' v] h IH]; [done|]. rewrite fmap_cons.
  intros [Hk Hh]%not_elem_of_cons. simpl in Hk.
  by rewrite !omap_cons_eq, IH, pick_other.
Qed.

Lemma pick_in s x h :
  sortkey x ∈ h.*1 -> NoDup h.*1 -> Forall (fun kv => kv.2 <> []) h ->
  omap (pick s) (hist_step h x) = omap (pick (x :: s)) h.
Proof.
  unfold hist_step.
  induction h as [|[k' v] h IH]; [by intros ?%elem_of_nil|].
  rewrite fmap_cons. cbn [hist_append fst].
  intros Hin [Hk' Hnd]%NoDup_cons [Hv Hne]%Forall_cons. simpl in Hv.
  destruct (decide (k' = sortkey x)) as [->|Hk].
  - by rewrite !omap_cons_eq, pick_grown, pick_pending, pick_fresh.
  - assert (sortkey x ∈ h.*1) by (by apply elem_of_cons in Hin as [?|?]).
    rewrite !omap_cons_eq, pick_other by congruence. by rewrite IH.
Qed.

Lemma singletons_pick h : singletons h = omap (pick []) h.
Proof.
  unfold singletons, pick, occ. csimpl.
  induction h as [|kv h IH]; csimpl; [done|]. by rewrite IH, andb_true_r.
Qed.

Lemma singletons_foldl s :
  forall h, NoDup h.*1 -> Forall (fun kv => kv.2 <> []) h ->
  singletons (foldl hist_step h s)
  = omap (pick s) h
    ++ filter (fun x => (sortkey x ∉ h.*1) /\ occ (sortkey x) s = 1%nat) s.
Proof.
  induction s as [|x s IH]; intros h Hnd Hne; csimpl.
  - by rewrite app_nil_r, singletons_pick.
  - rewrite IH; [|by apply (hist_append_NoDup h)|by apply (hist_append_nonempty h)].
    destruct (decide (sortkey x ∈ h.*1)) as [Hin|Hin].
    + rewrite pick_in by done. f_equal.
      rewrite filter_cons_False by (by intros [? _]).
      unfold hist_step. rewrite hist_append_keys_in by done.
      apply list_filter_iff. intros y. rewrite occ_cons.
      case_decide; [|done]. split; intros [Hy ?]; (split; [done|]); congruence.
    + unfold hist_step. rewrite (hist_append_fresh h (sortkey x) x) by done.
      rewrite omap_app, fmap_app, <- (assoc_L (++)), pick_fresh by done.
      f_equal. csimpl. unfold pick at 1. csimpl.
      rewrite filter_cons, occ_cons.
      rewrite (decide_True (P := sortkey x = sortkey x)) by done.
      assert (filter (fun y => (sortkey y ∉ h.*1 ++ [sortkey x])
                               /\ occ (sortkey y) s = 1%nat) s
              = filter (fun y => (sortkey y ∉ h.*1)
                                 /\ occ (sortkey y) (x :: s) = 1%nat) s) as ->.
      { apply filter_ext_in. intros y Hy. rewrite occ_cons, not_elem_of_app.
        rewrite list_elem_of_singleton.
        case_decide as Hxy.
        - pose proof (occ_elem_of (sortkey y) y s Hy eq_refl).
          split; [intros [[_ ?] _]; congruence | intros [_ ?]; lia].
        - split; [intros [[? _] ?]; done | intros [? ?]; split; [split|]; congruence]. }
      destruct (occ (sortkey x) s) as [|n] eqn:Ho; csimpl.
      * by rewrite decide_True.
      * rewrite decide_False; [done|]. intros [_ ?]. lia.
Qed.

(** [filtermultiport] is the filter that keeps the records whose key occurs
    once in the list. *)
Lemma filtermultiport_filter zmg :
  filtermultiport zmg = filter (fun x => occ (sortkey x) zmg = 1%nat) zmg.
Proof.
  unfold filtermultiport. change (fun h x => hist_append h (sortkey x) x) with hist_step.
  rewrite singletons_foldl by (constructor). simpl.
  apply list_filter_iff. intros x. split; [by intros [_ ?]|].
  intros ?. split; [apply not_elem_of_nil|done].
Qed.

Lemma occ_none k l : (forall y, y ∈ l -> sortkey y <> k) -> occ k l = 0%nat.
Proof.
  induction l as [|y l IH]; intros H; [done|].
  rewrite occ_cons, decide_False by (apply H; by left).
  apply IH. intros z Hz. apply H. by right.
Qed.

Lemma occ_two l i j x y :
  i <> j -> l !! i = Some x -> l !! j = Some y ->
  sortkey x = sortkey y -> (2 <= occ (sortkey x) l)%nat.
Proof.
  intros Hij Hi Hj Hk. destruct (decide (i < j)%nat).
  - by eapply occ_two_positions.
  - rewrite Hk. eapply (occ_two_positions l j i); [lia|done..].
Qed.

(** A key held at one position only occurs once. *)
Lemma occ_one l i x :
  l !! i = Some x ->
  (forall j y, j <> i -> l !! j = Some y -> sortkey y <> sortkey x) ->
  occ (sortkey x) l = 1%nat.
Proof.
  intros Hi Hother.
  rewrite <- (take_drop_middle l i x Hi), occ_app, occ_cons, decide_True by done.
  rewrite !occ_none; [done|..].
  - intros y (j & Hj)%list_elem_of_lookup. rewrite lookup_drop in Hj.
    apply (Hother (S i + j)%nat); [lia|done].
  - intros y (j & Hj)%list_elem_of_lookup.
    apply lookup_take_Some in Hj as [Hj Hlt]. apply (Hother j); [lia|done].
Qed.

(** ** C4: the collision filter *)

(** C4. [filtermultiport] keeps exactly the records whose key no other
    record of the input has: two records at different positions with one key
    are both dropped, a record whose key is at no other position is kept,
    and no key occurs twice in the output. *)
Theorem filtermultiport_unique_keys zmg :
  (forall x, x ∈ filtermultiport zmg <-> x ∈ zmg /\ occ (sortkey x) zmg = 1%nat)
  /\ (forall i j x y,
        i <> j -> zmg !! i = Some x -> zmg !! j = Some y -> sortkey x = sortkey y ->
        (x ∉ filtermultiport zmg) /\ (y ∉ filtermultiport zmg))
  /\ (forall i x,
        zmg !! i = Some x ->
        (forall j y, j <> i -> zmg !! j = Some y -> sortkey y <> sortkey x) ->
        x ∈ filtermultiport zmg)
  /\ NoDup (sortkey <$> filtermultiport zmg).
Proof.
  rewrite filtermultiport_filter.
  assert (forall x, x ∈ filter (fun x => occ (sortkey x) zmg = 1%nat) zmg
                    <-> x ∈ zmg /\ occ (sortkey x) zmg = 1%nat) as Hin.
  { intros x. rewrite list_elem_of_filter. tauto. }
  split; [done|]. split; [|split].
  - intros i j x y Hij Hi Hj Hk.
    pose proof (occ_two zmg i j x y Hij Hi Hj Hk) as H2.
    rewrite !Hin. split; intros [_ H1]; [|rewrite <- Hk in H1]; lia.
  - intros i x Hi Hother. apply Hin. split.
    + by eapply list_elem_of_lookup_2.
    + by eapply occ_one.
  - apply NoDup_alt. intros i j k Hi Hj.
    apply list_lookup_fmap_Some_1 in Hi as (x & -> & Hx).
    apply list_lookup_fmap_Some_1 in Hj as (y & Hk & Hy).
    destruct (decide (i = j)) as [|Hij]; [done|].
    pose proof (occ_two _ i j x y Hij Hx Hy Hk) as H2.
    pose proof (occ_sublist (sortkey x) _ _
                  (sublist_filter (fun x => occ (sortkey x) zmg = 1%nat) zmg)) as Hs.
    apply list_elem_of_lookup_2, Hin in Hx as [_ H1]. lia.
Qed.

(** The output of [filtermultiport] is a subsequence of its input. *)
Lemma filtermultiport_sublist zmg : filtermultiport zmg `sublist_of` zmg.
Proof. rewrite filtermultiport_filter. apply sublist_filter. Qed.

(** ** Good comparisons *)

Section Good.
Context {A : Type} (cmp : A -> A -> comparison) (Hgood : good cmp).

Lemma good_refl x : cmp x x = Eq.
Proof. pose proof (good_sym cmp Hgood x x). by destruct (cmp x x). Qed.

Lemma good_eq_l c x y z : cmp x y = Eq -> cmp y z = c -> cmp x z = c.
Proof.
  intros Hxy Hyz. destruct c; [by eapply good_trans|..].
  - destruct (cmp x z) eqn:Hxz; [|done|].
    + pose proof (good_sym cmp Hgood x y) as Hyx. rewrite Hxy in Hyx. simpl in Hyx.
      pose proof (good_trans cmp Hgood Eq y x z Hyx Hxz). congruence.
    + pose proof (good_sym cmp Hgood x z) as Hzx. rewrite Hxz in Hzx. simpl in Hzx.
      pose proof (good_sym cmp Hgood y z) as Hzy. rewrite Hyz in Hzy. simpl in Hzy.
      pose proof (good_sym cmp Hgood x y) as Hyx. rewrite Hxy in Hyx. simpl in Hyx.
      pose proof (good_trans cmp Hgood Lt z x y Hzx). 
      pose proof (good_trans cmp Hgood Lt y z x Hyz Hzx). congruence.
  - destruct (cmp x z) eqn:Hxz; [| |done].
    + pose proof (good_sym cmp Hgood x y) as Hyx. rewrite Hxy in Hyx. simpl in Hyx.
      pose proof (good_trans cmp Hgood Eq y x z Hyx Hxz). congruence.
    + pose proof (good_sym cmp Hgood x z) as Hzx. rewrite Hxz in Hzx. simpl in Hzx.
      pose proof (good_sym cmp Hgood x y) as Hyx. rewrite Hxy in Hyx. simpl in Hyx.
      pose proof (good_trans cmp Hgood Gt y z x Hyz Hzx). congruence.
Qed.

Lemma good_eq_r c x y z : cmp x y = c -> cmp y z = Eq -> cmp x z = c.
Proof.
  intros Hxy Hyz.
  pose proof (good_sym cmp Hgood y z) as Hzy. rewrite Hyz in Hzy. simpl in Hzy.
  pose proof (good_sym cmp Hgood x y) as Hyx. rewrite Hxy in Hyx.
  pose proof (good_eq_l (CompOpp c) z y x Hzy Hyx) as Hzx.
  rewrite (good_sym cmp Hgood z x), Hzx. by destruct c.
Qed.

(** Not greater is transitive. *)
Lemma good_le_trans x y z : cmp x y <> Gt -> cmp y z <> Gt -> cmp x z <> Gt.
Proof.
  intros Hxy Hyz. destruct (cmp x y) eqn:Exy; [| |done].
  - by rewrite (good_eq_l _ x y z Exy eq_refl).
  - destruct (cmp y z) eqn:Eyz; [| |done].
    + by rewrite (good_eq_r _ x y z Exy Eyz).
    + by rewrite (good_trans cmp Hgood Lt x y z Exy Eyz).
Qed.

Lemma good_flip : good (fun x y => cmp y x).
Proof.
  split.
  - intros x y. apply (good_sym cmp Hgood).
  - intros c x y z Hxy Hyz. by apply (good_trans cmp Hgood c z y x).
Qed.

Lemma good_on {B} (f : B -> A) : good (on f cmp).
Proof.
  split; unfold on.
  - intros x y. apply (good_sym cmp Hgood).
  - intros c x y z. apply (good_trans cmp Hgood).
Qed.

(** One step of a lexicographic comparison. *)
Lemma lexv_trans c x y z (rxy ryz rxz : comparison) :
  (rxy = c -> ryz = c -> rxz = c) ->
  lexv (cmp x y) rxy = c -> lexv (cmp y z) ryz = c -> lexv (cmp x z) rxz = c.
Proof.
  intros Hr. unfold lexv.
  destruct (cmp x y) eqn:Exy, (cmp y z) eqn:Eyz; intros H1 H2; subst;
    first [ by rewrite (good_trans cmp Hgood _ x y z Exy Eyz); auto
          | by rewrite (good_eq_l _ x y z Exy Eyz)
          | by rewrite (good_eq_r _ x y z Exy Eyz)
          | done ].
Qed.

Lemma lexv_sym x y (rxy ryx : comparison) :
  ryx = CompOpp rxy -> lexv (cmp y x) ryx = CompOpp (lexv (cmp x y) rxy).
Proof.
  intros ->. unfold lexv. rewrite (good_sym cmp Hgood x y).
  by destruct (cmp x y).
Qed.

End Good.

Lemma good_lex {A} (c1 c2 : A -> A -> comparison) :
  good c1 -> good c2 -> good (lex c1 c2).
Proof.
  intros H1 H2. split; unfold lex.
  - intros x y. apply lexv_sym; [done|]. apply (good_sym c2 H2).
  - intros c x y z. apply lexv_trans; [done|]. apply (good_trans c2 H2).
Qed.

Lemma good_Z : good Z.compare.
Proof.
  split.
  - intros x y. apply Z.compare_antisym.
  - intros c x y z. destruct c; rewrite ?Z.compare_eq_iff, ?Z.compare_lt_iff,
      ?Z.compare_gt_iff; lia.
Qed.

Lemma good_ascii : good Ascii.compare.
Proof.
  split.
  - intros x y. apply Ascii.compare_antisym.
  - intros c x y z. unfold Ascii.compare.
    destruct c; rewrite ?N.compare_eq_iff, ?N.compare_lt_iff, ?N.compare_gt_iff; lia.
Qed.

Lemma string_compare_cons a x b y :
  String.compare (String a x) (String b y)
  = lexv (Ascii.compare a b) (String.compare x y).
Proof. simpl. by destruct (Ascii.compare a b). Qed.

Lemma good_string : good String.compare.
Proof.
  split.
  - intros x y. apply String.compare_antisym.
  - intros c x. induction x as [|a x IH]; intros [|b y] [|d z];
      try (simpl; congruence).
    rewrite !string_compare_cons.
    apply (lexv_trans Ascii.compare good_ascii c a b d). apply IH.
Qed.

(** ** The stable sort *)

Lemma insert_by_perm {A} (before : A -> A -> bool) x l :
  insert_by before x l ≡ₚ x :: l.
Proof.
  induction l as [|y l IH]; simpl; [done|].
  destruct (before y x); [|done]. rewrite IH. apply Permutation_swap.
Qed.

Lemma sort_by_perm {A} (before : A -> A -> bool) l : sort_by before l ≡ₚ l.
Proof.
  induction l as [|x l IH]; simpl; [done|].
  by rewrite insert_by_perm, IH.
Qed.

Lemma sort_by_elem_of {A} (before : A -> A -> bool) l x :
  x ∈ sort_by before l <-> x ∈ l.
Proof. by rewrite sort_by_perm. Qed.

Lemma insert_by_ext {A} (b1 b2 : A -> A -> bool) x l :
  (forall y, y ∈ l -> b1 y x = b2 y x) -> insert_by b1 x l = insert_by b2 x l.
Proof.
  induction l as [|y l IH]; intros H; simpl; [done|].
  rewrite (H y) by (by left). rewrite IH; [done|]. intros z Hz. apply H. by right.
Qed.

(** Only the comparisons between elements of the list matter. *)
Lemma sort_by_ext {A} (b1 b2 : A -> A -> bool) l :
  (forall x y, x ∈ l -> y ∈ l -> b1 x y = b2 x y) -> sort_by b1 l = sort_by b2 l.
Proof.
  induction l as [|x l IH]; intros H; simpl; [done|].
  rewrite IH by (intros; apply H; by right).
  apply insert_by_ext. intros y Hy%sort_by_elem_of. apply H; [by right|by left].
Qed.

Section Sorted.
Context {A : Type} (cmp : A -> A -> comparison) (Hgood : good cmp).

Let before (x y : A) : bool := is_lt (cmp x y).
Let le (x y : A) : Prop := cmp x y <> Gt.

Lemma insert_by_sorted x l :
  StronglySorted le l -> StronglySorted le (insert_by before x l).
Proof.
  induction 1 as [|y l Hl IH Hy]; simpl; [by repeat constructor|].
  unfold before at 1. destruct (cmp y x) eqn:Hyx; simpl.
  - constructor; [by constructor|]. constructor.
    + unfold le. by rewrite (good_sym cmp Hgood y x), Hyx.
    + eapply Forall_impl; [done|]. intros z Hz. simpl in Hz.
      apply (good_le_trans cmp Hgood x y z); [|done].
      by rewrite (good_sym cmp Hgood y x), Hyx.
  - constructor; [done|]. rewrite insert_by_perm. constructor; [|done].
    unfold le. by rewrite Hyx.
  - constructor; [by constructor|]. constructor.
    + unfold le. by rewrite (good_sym cmp Hgood y x), Hyx.
    + eapply Forall_impl; [done|]. intros z Hz. simpl in Hz.
      apply (good_le_trans cmp Hgood x y z); [|done].
      by rewrite (good_sym cmp Hgood y x), Hyx.
Qed.

Lemma sort_by_sorted l : StronglySorted le (sort_by before l).
Proof.
  induction l as [|x l IH]; simpl; [constructor|]. by apply insert_by_sorted.
Qed.

End Sorted.

Lemma StronglySorted_impl_in {A} (R1 R2 : A -> A -> Prop) l :
  (forall x y, x ∈ l -> y ∈ l -> R1 x y -> R2 x y) ->
  StronglySorted R1 l -> StronglySorted R2 l.
Proof.
  intros H Hs. induction Hs as [|x l Hl IH Hx]; constructor.
  - apply IH. intros y z Hy Hz. apply H; by right.
  - apply Forall_forall. intros y Hy. apply H; [by left|by right|].
    by eapply Forall_forall in Hx.
Qed.

Lemma StronglySorted_sublist {A} (R : A -> A -> Prop) l1 l2 :
  l1 `sublist_of` l2 -> StronglySorted R l2 -> StronglySorted R l1.
Proof.
  induction 1 as [|x l1 l2 Hsub IH|x l1 l2 Hsub IH]; [done|..];
    intros [Hall Hs]%StronglySorted_cons.
  - constructor; [by apply IH|].
    apply Forall_forall. intros y Hy. eapply Forall_forall in Hall; [done|].
    by eapply sublist_subseteq.
  - by apply IH.
Qed.

Lemma StronglySorted_lookup {A} (R : A -> A -> Prop) l :
  StronglySorted R l ->
  forall a b u v, (a < b)%nat -> l !! a = Some u -> l !! b = Some v -> R u v.
Proof.
  intros Hs. induction Hs as [|z l Hl IH Hz]; intros a b u v Hab Ha Hb.
  - by rewrite lookup_nil in Ha.
  - destruct b as [|b]; [lia|]. destruct a as [|a]; simpl in *.
    + injection Ha as <-. eapply Forall_forall in Hz; [done|].
      by eapply list_elem_of_lookup_2.
    + eapply (IH a b); [lia|done..].
Qed.

(** In a strongly sorted list, of two different elements the one that may
    not come second is at the smaller position. *)
Lemma StronglySorted_position {A} (R : A -> A -> Prop) l x y :
  StronglySorted R l -> x ∈ l -> y ∈ l -> x <> y -> ~ R y x ->
  exists i j, (i < j)%nat /\ l !! i = Some x /\ l !! j = Some y.
Proof.
  intros Hs (i & Hi)%list_elem_of_lookup (j & Hj)%list_elem_of_lookup Hxy Hn.
  exists i, j. split; [|done].
  destruct (decide (i < j)%nat) as [|Hge]; [done|]. exfalso.
  destruct (decide (i = j)) as [->|Hij]; [congruence|].
  apply Hn. eapply (StronglySorted_lookup R l Hs j i); [lia|done..].
Qed.

(** ** The comparisons of the sort keys *)

Lemma good_float_cmp : good float_cmp.
Proof.
  apply good_lex; [apply good_on, good_Z|].
  apply good_lex; apply good_on, good_Z.
Qed.

Lemma good_availability_cmp : good availability_cmp.
Proof.
  apply good_lex; [apply good_on, good_float_cmp|].
  apply good_lex; apply good_on; [apply good_Z|apply good_string].
Qed.

Lemma good_key_cmp : good key_cmp.
Proof.
  apply good_lex; [apply good_on, good_Z|].
  apply good_lex; apply good_on; [apply good_Z|apply good_string].
Qed.

Lemma good_address_cmp : good address_cmp.
Proof. apply good_lex; apply good_on; [apply good_string|apply good_key_cmp]. Qed.

Lemma SFcompare_float_cmp x y :
  x <> S754_nan -> y <> S754_nan -> SFcompare x y = Some (float_cmp x y).
Proof.
  intros Hx Hy. unfold float_cmp, lex, on, lexv.
  destruct x as [[]|[]| |[] mx ex], y as [[]|[]| |[] my ey]; try done; simpl.
  - rewrite Z.compare_opp, (Z.compare_antisym ex ey).
    by destruct (ex ?= ey).
  - by destruct (ex ?= ey).
Qed.

Lemma float_ltb_not_nan x y : Py.float_ltb x y = true -> y <> S754_nan.
Proof. intros H ->. by destruct x. Qed.

Lemma string_eqb_compare s t :
  String.eqb s t = match String.compare s t with Eq => true | _ => false end.
Proof.
  destruct (String.eqb_spec s t) as [->|Hne].
  - by rewrite (good_refl _ good_string).
  - destruct (String.compare s t) eqn:E; [|done..].
    by apply String.compare_eq_iff in E.
Qed.

Lemma availability_lt_cmp x y :
  uptime x <> S754_nan -> uptime y <> S754_nan ->
  availability_lt x y = is_lt (availability_cmp x y).
Proof.
  intros Hx Hy. unfold availability_lt, availability_cmp, lex, on, lexv.
  unfold Py.float_eqb, Py.float_ltb, SFeqb, SFltb.
  rewrite (SFcompare_float_cmp _ _ Hx Hy), Z.eqb_compare. unfold Z.ltb, String.ltb.
  destruct (float_cmp (uptime x) (uptime y)); simpl; try done.
  by destruct (lastsuccess x ?= lastsuccess y).
Qed.

Lemma key_ltb_cmp a b : key_tag a = key_tag b -> key_ltb a b = is_lt (key_cmp a b).
Proof.
  unfold key_cmp, lex, on, lexv.
  destruct a as [m|s], b as [n|t]; try done; simpl; intros _.
  unfold Z.ltb. by destruct (m ?= n).
Qed.

Lemma well_keyed_tag x y :
  well_keyed x -> well_keyed y -> net x = net y ->
  key_tag (sortkey x) = key_tag (sortkey y).
Proof.
  unfold well_keyed. intros Hx Hy Hn. rewrite Hn in Hx.
  by destruct (net y), (sortkey x), (sortkey y).
Qed.

Lemma net_name_inj a b : net_name a = net_name b -> a = b.
Proof. by destruct a, b. Qed.

Lemma address_lt_cmp x y :
  well_keyed x -> well_keyed y -> address_lt x y = is_lt (address_cmp x y).
Proof.
  intros Hx Hy. unfold address_lt, address_cmp, lex, on, lexv.
  rewrite string_eqb_compare. unfold String.ltb.
  destruct (String.compare (net_name (net x)) (net_name (net y))) eqn:E; simpl;
    try done.
  apply String.compare_eq_iff, net_name_inj in E.
  case_bool_decide as Hk; simpl.
  - by rewrite Hk, (good_refl _ good_key_cmp).
  - by apply key_ltb_cmp, well_keyed_tag.
Qed.

(** ** filterbyasn *)

Section FilterbyasnFacts.
Variable resolve : string -> option Z.
Variables max_per_asn max_total : Z.

Lemma resolved_to_snoc asn l x :
  resolved_to resolve asn (l ++ [x])
  = (resolved_to resolve asn l + if decide (resolve (ip x) = Some asn) then 1 else 0)%nat.
Proof.
  unfold resolved_to. rewrite filter_app, length_app, filter_cons, filter_nil.
  by case_decide.
Qed.

Lemma asn_step_inv st x :
  Z.of_nat (length (result st)) <> max_total ->
  asn_inv resolve max_per_asn max_total st -> asn_inv resolve max_per_asn max_total (asn_step resolve max_per_asn st x).
Proof.
  intros Hlen [Hc Ha Hp Ht Hr]. unfold asn_step.
  destruct (resolve (ip x)) as [asn|] eqn:Hx; [|by split].
  set (count := match asn_count st !! asn with
                | Some _ => asn_count st
                | None => <[asn:=0]> (asn_count st)
                end).
  assert (count !! asn = Some (Z.of_nat (resolved_to resolve asn (result st)))) as Hn.
  { unfold count. destruct (asn_count st !! asn) as [n|] eqn:E.
    - by rewrite E, (Hc asn n E).
    - by rewrite lookup_insert_eq, (Ha asn E). }
  assert (forall a, a <> asn -> count !! a = asn_count st !! a) as Hother.
  { intros a Hne. unfold count. destruct (asn_count st !! asn); [done|].
    by rewrite lookup_insert_ne. }
  rewrite Hn. simpl. destruct (Z.eqb_spec (Z.of_nat (resolved_to resolve asn (result st)))
                                 max_per_asn) as [Heq|Hneq].
  - split; simpl; try done.
    + intros a n. destruct (decide (a = asn)) as [->|Hne].
      * rewrite Hn. congruence.
      * rewrite Hother by done. apply Hc.
    + intros a. destruct (decide (a = asn)) as [->|Hne].
      * by rewrite Hn.
      * rewrite Hother by done. apply Ha.
  - split; simpl.
    + intros a n. rewrite resolved_to_snoc.
      destruct (decide (a = asn)) as [->|Hne].
      * rewrite lookup_insert_eq, decide_True by done. intros [= <-]. lia.
      * rewrite lookup_insert_ne, Hother, decide_False by congruence.
        intros E. rewrite (Hc a n E). lia.
    + intros a. destruct (decide (a = asn)) as [->|Hne].
      * by rewrite lookup_insert_eq.
      * rewrite lookup_insert_ne, Hother, resolved_to_snoc, decide_False by congruence.
        intros E. rewrite (Ha a E). lia.
    + intros a. rewrite resolved_to_snoc. specialize (Hp a). case_decide as E.
      * assert (a = asn) as -> by congruence. specialize (Hp). lia.
      * lia.
    + rewrite length_app. simpl. lia.
    + apply Forall_app. split; [done|]. constructor; [congruence|constructor].
Qed.

Lemma asn_loop_spec l : forall st,
  asn_inv resolve max_per_asn max_total st ->
  asn_inv resolve max_per_asn max_total (asn_loop resolve max_per_asn max_total l st)
  /\ exists acc, result (asn_loop resolve max_per_asn max_total l st) = result st ++ acc
                 /\ acc `sublist_of` l.
Proof.
  induction l as [|x l IH]; intros st Hinv; simpl.
  - split; [done|]. exists []. by rewrite app_nil_r.
  - destruct (Z.eqb_spec (Z.of_nat (length (result st))) max_total) as [Heq|Hne].
    + split; [done|]. exists []. rewrite app_nil_r. split; [done|apply sublist_nil_l].
    + destruct (IH _ (asn_step_inv st x Hne Hinv)) as (Hinv' & acc & -> & Hsub).
      split; [done|]. unfold asn_step.
      destruct (resolve (ip x)) as [asn|]; simpl.
      * destruct (default 0 _ =? max_per_asn); simpl.
        -- exists acc. split; [done|by apply sublist_cons].
        -- exists (x :: acc). rewrite <- (assoc_L (++)). split; [done|by apply sublist_skip].
      * exists acc. split; [done|by apply sublist_cons].
Qed.

Lemma asn_inv_init :
  0 <= max_per_asn -> 0 <= max_total ->
  asn_inv resolve max_per_asn max_total {| result := []; asn_count := ∅; stderr := [] |}.
Proof. intros ??. by split. Qed.

End FilterbyasnFacts.

Lemma by_net_replicate n x : by_net (net x) (replicate n x) = replicate n x.
Proof.
  unfold by_net. induction n as [|n IH]; simpl; [done|].
  by rewrite filter_cons_True, IH.
Qed.

Lemma by_net_replicate_ne n x k : net x <> k -> by_net k (replicate n x) = [].
Proof.
  intros Hk. unfold by_net. induction n as [|n IH]; simpl; [done|].
  by rewrite filter_cons_False.
Qed.

(** What [filterbyasn] returns, for caps that are not negative. *)
Lemma filterbyasn_kept resolve zmg max_per_asn max_total :
  0 <= max_per_asn -> 0 <= max_total ->
  exists kept,
    (filterbyasn resolve zmg max_per_asn max_total).1
    = kept ++ by_net ipv6 zmg ++ by_net onion zmg
    /\ kept `sublist_of` by_net ipv4 zmg
    /\ (forall asn, Z.of_nat (resolved_to resolve asn kept) <= max_per_asn)
    /\ Z.of_nat (length kept) <= max_total
    /\ Forall (fun x => resolve (ip x) <> None) kept.
Proof.
  intros Hp Ht. unfold filterbyasn. simpl.
  destruct (asn_loop_spec resolve max_per_asn max_total (by_net ipv4 zmg) _
              (asn_inv_init resolve max_per_asn max_total Hp Ht))
    as ([_ _ Hper Htot Hr] & kept & Hres & Hsub).
  simpl in Hres. rewrite Hres in *. by exists kept.
Qed.

(** ** C1: the caps of the origin-diversity filter *)

(** C1. With caps that are not negative, the list [filterbyasn] returns is a
    subsequence of the IPv4 records followed by all IPv6 and all Onion
    records; among the IPv4 records it keeps, at most [max_per_asn] resolve
    to one ASN and there are at most [max_total] in all; every record that
    is not IPv4 is returned; and since the total cap bounds the IPv4 part
    only, there are inputs for which the returned list is longer than
    [max_total]. *)
Theorem filterbyasn_caps resolve zmg max_per_asn max_total :
  0 <= max_per_asn -> 0 <= max_total ->
  exists kept,
    (filterbyasn resolve zmg max_per_asn max_total).1
    = kept ++ by_net ipv6 zmg ++ by_net onion zmg
    /\ kept `sublist_of` by_net ipv4 zmg
    /\ (forall asn, Z.of_nat (resolved_to resolve asn kept) <= max_per_asn)
    /\ Z.of_nat (length kept) <= max_total
    /\ (forall x, x ∈ zmg -> net x <> ipv4 ->
          x ∈ (filterbyasn resolve zmg max_per_asn max_total).1)
    /\ (exists zmg',
          max_total
          < Z.of_nat (length (filterbyasn resolve zmg' max_per_asn max_total).1)).
Proof.
  intros Hp Ht.
  destruct (filterbyasn_kept resolve zmg max_per_asn max_total Hp Ht)
    as (kept & Hres & Hsub & Hper & Htot & _).
  exists kept. rewrite Hres.
  split; [done|]. split; [done|]. split; [done|]. split; [done|]. split.
  - intros x Hx Hnet. rewrite !elem_of_app. right. unfold by_net.
    rewrite !list_elem_of_filter. destruct (net x); [done|by left|by right].
  - exists (replicate (S (Z.to_nat max_total)) SampleNode.d).
    unfold filterbyasn.
    rewrite (by_net_replicate _ SampleNode.d : by_net ipv6 _ = _).
    rewrite !(by_net_replicate_ne _ SampleNode.d) by done. simpl.
    rewrite app_nil_r, length_replicate. lia.
Qed.

Lemma filterbyasn_caps_witness :
  exists kept,
    (filterbyasn (fun _ => Some 64500)
       [SampleNode.a; SampleNode.b; SampleNode.d; SampleNode.c] 2 512).1
    = kept ++ by_net ipv6 [SampleNode.a; SampleNode.b; SampleNode.d; SampleNode.c]
           ++ by_net onion [SampleNode.a; SampleNode.b; SampleNode.d; SampleNode.c]
    /\ kept `sublist_of` by_net ipv4 [SampleNode.a; SampleNode.b; SampleNode.d; SampleNode.c]
    /\ (forall asn, Z.of_nat (resolved_to (fun _ => Some 64500) asn kept) <= 2)
    /\ Z.of_nat (length kept) <= 512
    /\ (forall x, x ∈ [SampleNode.a; SampleNode.b; SampleNode.d; SampleNode.c] ->
          net x <> ipv4 ->
          x ∈ (filterbyasn (fun _ => Some 64500)
                 [SampleNode.a; SampleNode.b; SampleNode.d; SampleNode.c] 2 512).1)
    /\ (exists zmg',
          512 < Z.of_nat (length (filterbyasn (fun _ => Some 64500) zmg' 2 512).1)).
Proof.
  apply (filterbyasn_caps (fun _ => Some 64500)
           [SampleNode.a; SampleNode.b; SampleNode.d; SampleNode.c] 2 512); lia.
Defined.

(** Three records of one origin: the third is dropped. *)
Example filterbyasn_three_of_one_origin :
  filterbyasn (fun _ => Some 64500)
    [SampleNode.a; SampleNode.b; SampleNode.d; SampleNode.c] 2 512
  = ([SampleNode.a; SampleNode.b; SampleNode.d], []).
Proof. vm_compute. reflexivity. Qed.

(** ** C8: a lookup that fails *)



(** ** The records [main] works on *)

Lemma parse_address_keyed f n z p i k :
  parse_address f = Ok (Some (n, z, p, i, k)) ->
  match n, k with
  | ipv4, KInt _ | ipv6, KStr _ | onion, KStr _ => True
  | _, _ => False
  end.
Proof.
  unfold parse_address. destruct (PATTERN_IPV4 f) as [m|].
  - destruct (octets m [0; 1; 2; 3]%nat 0) as [[ipn|]|]; simpl; [|done..].
    destruct (ipn =? 0); [done|].
    destruct (Py.int (group m 6)); simpl; [|done]. by intros [= <- _ _ _ <-].
  - destruct (PATTERN_IPV6 f) as [m|].
    + destruct (bool_decide _); [done|].
      destruct (Py.int (group m 2)); simpl; [|done]. by intros [= <- _ _ _ <-].
    + destruct (PATTERN_ONION f) as [m|]; [|done].
      destruct (Py.int (group m 2)); simpl; [|done]. by intros [= <- _ _ _ <-].
Qed.

Lemma parseline_well_keyed line x : parseline line = Ok (Some x) -> well_keyed x.
Proof.
  intros H. pose proof (parseline_Some_long _ _ H) as Hl.
  rewrite parseline_long in H by done.
  apply bind_Ok in H as ([[[[[n z] p] i] k]|] & Ha & H); [|done].
  apply bind_Ok in H as ([[[[u l] v] s] b] & _ & [= <-]).
  apply parse_address_keyed in Ha. unfold well_keyed. simpl.
  by destruct n, k.
Qed.

Lemma mapM_Ok {A B} (f : A -> outcome B) l r :
  mapM f l = Ok r -> Forall2 (fun a b => f a = Ok b) l r.
Proof.
  revert r. induction l as [|a l IH]; intros r; simpl.
  - intros [= <-]. constructor.
  - intros (b & Hb & (k & Hk & [= <-])%bind_Ok)%bind_Ok.
    constructor; [done|]. by apply IH.
Qed.

(** Every record that was parsed comes from a line. *)
Lemma parsed_from_line lines (parsed : list (option node)) x :
  mapM parseline lines = Ok parsed -> x ∈ omap id parsed ->
  exists line, line ∈ lines /\ parseline line = Ok (Some x).
Proof.
  intros H%mapM_Ok (o & Ho & Hx)%list_elem_of_omap. simpl in Hx. subst o.
  apply list_elem_of_lookup in Ho as [i Hi].
  destruct (Forall2_lookup_r _ _ _ _ _ H Hi) as (line & Hline & Hp).
  exists line. split; [by eapply list_elem_of_lookup_2|done].
Qed.

Lemma quality_filter_elem_of zmg x :
  x ∈ quality_filter zmg <-> x ∈ zmg /\ passes_gates x.
Proof.
  unfold quality_filter, passes_gates. rewrite !list_elem_of_filter. tauto.
Qed.

Lemma filterbyasn_subseteq resolve zmg max_per_asn max_total x :
  0 <= max_per_asn -> 0 <= max_total ->
  x ∈ (filterbyasn resolve zmg max_per_asn max_total).1 -> x ∈ zmg.
Proof.
  intros Hp Ht.
  destruct (filterbyasn_kept resolve zmg max_per_asn max_total Hp Ht)
    as (kept & -> & Hsub & _).
  rewrite !elem_of_app. unfold by_net in *. intros [Hx|[Hx|Hx]].
  - apply sublist_subseteq in Hsub. apply Hsub in Hx.
    by apply list_elem_of_filter in Hx as [_ ?].
  - by apply list_elem_of_filter in Hx as [_ ?].
  - by apply list_elem_of_filter in Hx as [_ ?].
Qed.

Lemma candidates_elem_of parsed x :
  x ∈ candidates parsed <-> x ∈ omap id parsed /\ passes_gates x.
Proof. unfold candidates. by rewrite sort_by_elem_of, quality_filter_elem_of. Qed.

Lemma accepted_subseteq resolve parsed x :
  x ∈ (accepted resolve parsed).1 -> x ∈ candidates parsed.
Proof.
  unfold accepted. intros Hx%filterbyasn_subseteq; [|done..].
  by apply (sublist_subseteq _ _ (filtermultiport_sublist _)) in Hx.
Qed.

Lemma select_elem_of resolve parsed x :
  x ∈ (select resolve parsed).1 <-> x ∈ (accepted resolve parsed).1.
Proof.
  unfold select. destruct (accepted resolve parsed) as [zmg err]. simpl.
  apply sort_by_elem_of.
Qed.

Lemma float_eqb_not_lt u c : Py.float_eqb u c = true -> Py.float_ltb c u = false.
Proof.
  unfold Py.float_eqb, Py.float_ltb, SFeqb, SFltb. intros H.
  assert (u <> S754_nan) as Hu by (by intros ->).
  assert (c <> S754_nan) as Hc by (intros ->; by destruct u).
  rewrite SFcompare_float_cmp in H by done. rewrite SFcompare_float_cmp by done.
  rewrite (good_sym _ good_float_cmp u c). by destruct (float_cmp u c).
Qed.

(** ** C3: the quality gates *)

(** C3. A record is in the output of the quality filter exactly when it is in
    the input and passes the five gates: service bit 1, uptime above 50,
    height at least [MIN_BLOCKS], address not in the deny-list, agent with
    spaces replaced by hyphens matching the pattern. Every record [main]
    works on after the filter, up to the ones it prints, passes them. A
    record with an uptime equal to 50.0 is dropped. *)
Theorem quality_gates :
  (forall zmg x, x ∈ quality_filter zmg <-> x ∈ zmg /\ passes_gates x)
  /\ (forall resolve parsed x,
        x ∈ candidates parsed \/ x ∈ filtermultiport (candidates parsed)
        \/ x ∈ (accepted resolve parsed).1 \/ x ∈ (select resolve parsed).1 ->
        passes_gates x)
  /\ (forall zmg x,
        Py.float_eqb (uptime x) (Py.float_of_Z 50) = true -> x ∉ quality_filter zmg)
  /\ Py.float_of_string "50.0" = Ok (Py.float_of_Z 50).
Proof.
  split; [apply quality_filter_elem_of|]. split; [|split].
  - intros resolve parsed x Hx.
    assert (x ∈ candidates parsed) as Hc.
    { destruct Hx as [?|[Hx|[Hx|Hx]]]; [done|..].
      - by apply (sublist_subseteq _ _ (filtermultiport_sublist _)) in Hx.
      - by eapply accepted_subseteq.
      - eapply accepted_subseteq. by apply select_elem_of. }
    by apply candidates_elem_of in Hc as [_ ?].
  - intros zmg x Heq (_ & _ & Hlt & _)%quality_filter_elem_of.
    apply float_eqb_not_lt in Heq. congruence.
  - vm_compute. reflexivity.
Qed.

(** ** C7: the order of the records that reach the origin-diversity filter *)

Lemma passes_gates_not_nan x : passes_gates x -> uptime x <> S754_nan.
Proof. intros (_ & H & _). by eapply float_ltb_not_nan. Qed.

(** The candidates are in descending order of availability. *)
Lemma candidates_sorted parsed :
  StronglySorted (fun x y => availability_lt x y = false) (candidates parsed).
Proof.
  unfold candidates. set (q := quality_filter (omap id parsed)).
  assert (forall x, x ∈ q -> uptime x <> S754_nan) as Hq.
  { intros x (_ & Hx)%quality_filter_elem_of. by apply passes_gates_not_nan. }
  rewrite (sort_by_ext _ (fun x y => is_lt (availability_cmp y x))) by
    (intros; apply availability_lt_cmp; auto).
  eapply StronglySorted_impl_in;
    [|apply (sort_by_sorted (fun x y => availability_cmp y x)),
        good_flip, good_availability_cmp].
  intros x y Hx%sort_by_elem_of Hy%sort_by_elem_of Hle. simpl in Hle.
  rewrite availability_lt_cmp by auto.
  rewrite (good_sym _ good_availability_cmp y x).
  by destruct (availability_cmp y x).
Qed.

(** C7. [filtermultiport] returns a subsequence of its input; the records
    [main] hands to it are in descending order of
    [(uptime, lastsuccess, ip)]; hence the IPv4 records the loop of
    [filterbyasn] goes through are in that order too: of two of them, the
    earlier one never has the smaller key. *)
Theorem diversity_input_order :
  (forall zmg, filtermultiport zmg `sublist_of` zmg)
  /\ (forall parsed,
        StronglySorted (fun x y => availability_lt x y = false) (candidates parsed))
  /\ (forall resolve parsed,
        (accepted resolve parsed).1
        = result (asn_loop resolve MAX_SEEDS_PER_ASN NSEEDS
                    (by_net ipv4 (filtermultiport (candidates parsed)))
                    {| result := []; asn_count := ∅; stderr := [] |})
          ++ by_net ipv6 (filtermultiport (candidates parsed))
          ++ by_net onion (filtermultiport (candidates parsed)))
  /\ (forall parsed,
        StronglySorted (fun x y => availability_lt x y = false)
          (by_net ipv4 (filtermultiport (candidates parsed)))).
Proof.
  split; [apply filtermultiport_sublist|]. split; [apply candidates_sorted|].
  split; [done|]. intros parsed.
  eapply StronglySorted_sublist; [|apply candidates_sorted].
  etrans; [apply sublist_filter|apply filtermultiport_sublist].
Qed.

(** ** C6: the output *)

(** C6. When [main] ends without an exception, the lines it prints are the
    records [filterbyasn] returned, rearranged in ascending order of
    [(net, sortkey)], one line for each: [[ip]:port] for an IPv6 record,
    [ip:port] for an IPv4 or Onion record. Of two IPv4 records that are
    printed, the one with the smaller number comes first. *)
Theorem main_output resolve lines out err :
  main resolve lines = Ok (out, err) ->
  exists parsed final,
    mapM parseline lines = Ok parsed
    /\ final ≡ₚ (accepted resolve parsed).1
    /\ StronglySorted (fun x y => address_lt y x = false) final
    /\ out = format_node <$> final
    /\ (forall x, net x = ipv6 ->
          format_node x = "[" +:+ ip x +:+ "]:" +:+ format_int (port x))
    /\ (forall x, net x = ipv4 \/ net x = onion ->
          format_node x = ip x +:+ ":" +:+ format_int (port x))
    /\ (forall x y m n,
          x ∈ final -> y ∈ final -> net x = ipv4 -> net y = ipv4 ->
          sortkey x = KInt m -> sortkey y = KInt n -> m < n ->
          exists i j, (i < j)%nat /\ final !! i = Some x /\ final !! j = Some y
                      /\ out !! i = Some (format_node x)
                      /\ out !! j = Some (format_node y)).
Proof.
  unfold main. intros (parsed & Hparsed & H)%bind_Ok.
  unfold select in H. destruct (accepted resolve parsed) as [zmg err'] eqn:Hacc.
  injection H as <- <-. exists parsed, (sort_by address_lt zmg). rewrite Hacc.
  cbn [fst].
  assert (forall x, x ∈ zmg -> well_keyed x) as Hwk.
  { intros x Hx. assert (x ∈ (accepted resolve parsed).1) as Ha by (by rewrite Hacc).
    apply accepted_subseteq, candidates_elem_of in Ha as [Ha _].
    destruct (parsed_from_line _ _ _ Hparsed Ha) as (line & _ & Hl).
    by eapply parseline_well_keyed. }
  assert (StronglySorted (fun x y => address_lt y x = false) (sort_by address_lt zmg))
    as Hsorted.
  { rewrite (sort_by_ext _ (fun x y => is_lt (address_cmp x y))) by
      (intros; apply address_lt_cmp; auto).
    eapply StronglySorted_impl_in;
      [|apply (sort_by_sorted address_cmp), good_address_cmp].
    intros x y Hx%sort_by_elem_of Hy%sort_by_elem_of Hle. simpl in Hle.
    rewrite address_lt_cmp by auto.
    rewrite (good_sym _ good_address_cmp x y).
    by destruct (address_cmp x y). }
  split; [done|]. split; [apply sort_by_perm|]. split; [done|]. split; [done|].
  split; [|split].
  - intros x Hx. unfold format_node. by rewrite decide_True.
  - intros x Hx. unfold format_node. rewrite decide_False; [done|].
    intros E. rewrite E in Hx. by destruct Hx.
  - intros x y m n Hx Hy Hnx Hny Hkx Hky Hmn.
    assert (address_lt x y = true) as Hlt.
    { unfold address_lt. rewrite Hnx, Hny, Hkx, Hky. simpl.
      rewrite bool_decide_false by (intros [= ?]; lia). simpl. lia. }
    destruct (StronglySorted_position _ _ x y Hsorted Hx Hy) as (i & j & Hij & Hi & Hj).
    + intros ->. rewrite Hkx in Hky. injection Hky as ->. lia.
    + congruence.
    + exists i, j. rewrite !list_lookup_fmap, Hi, Hj. done.
Qed.

Lemma main_output_witness :
  exists parsed final,
    mapM parseline [Sample.line "1.2.3.5:8333" "100.00%" "700000"; Sample.good]
    = Ok parsed
    /\ final ≡ₚ (accepted (fun _ => Some 64500) parsed).1
    /\ StronglySorted (fun x y => address_lt y x = false) final
    /\ ["1.2.3.4:8333"; "1.2.3.5:8333"] = format_node <$> final
    /\ (forall x, net x = ipv6 ->
          format_node x = "[" +:+ ip x +:+ "]:" +:+ format_int (port x))
    /\ (forall x, net x = ipv4 \/ net x = onion ->
          format_node x = ip x +:+ ":" +:+ format_int (port x))
    /\ (forall x y m n,
          x ∈ final -> y ∈ final -> net x = ipv4 -> net y = ipv4 ->
          sortkey x = KInt m -> sortkey y = KInt n -> m < n ->
          exists i j, (i < j)%nat /\ final !! i = Some x /\ final !! j = Some y
                      /\ ["1.2.3.4:8333"; "1.2.3.5:8333"] !! i = Some (format_node x)
                      /\ ["1.2.3.4:8333"; "1.2.3.5:8333"] !! j = Some (format_node y)).
Proof.
  apply (main_output (fun _ => Some 64500)
           [Sample.line "1.2.3.5:8333" "100.00%" "700000"; Sample.good]
           ["1.2.3.4:8333"; "1.2.3.5:8333"] []).
  vm_compute. reflexivity.
Defined.

(** ** Runs of [main] *)

(** A passing line, a line with an uptime of 40% and a line that shares the
    key of the first: nothing is printed. *)
Example main_collision :
  main (fun _ => Some 64500)
    [Sample.good;
     Sample.line "9.9.9.9:8333" "40.00%" "700000";
     Sample.line "1.2.3.4:8334" "100.00%" "700000"]
  = Ok ([], []).
Proof. vm_compute. reflexivity. Qed.

(** Two passing lines of different origins: both are printed, the smaller
    address first, whatever their order in the report. *)
Example main_two_origins :
  main (fun a => if String.eqb a "10.0.0.1" then Some 64500 else Some 64501)
    [Sample.line "10.0.0.1:8333" "99.00%" "700000";
     Sample.line "9.255.0.1:8333" "98.00%" "700000"]
  = Ok (["9.255.0.1:8333"; "10.0.0.1:8333"], []).
Proof. vm_compute. reflexivity. Qed.

(** An uptime of exactly 50% does not pass, a height below [MIN_BLOCKS] does
    not pass, and a lookup that fails is reported on the error stream. *)
Example main_gates_and_lookup :
  main (fun _ => None)
    [Sample.line "10.0.0.1:8333" "50.0%" "700000";
     Sample.line "10.0.0.2:8333" "99.00%" "615800";
     Sample.line "10.0.0.3:8333" "50.01%" "615801";
     Sample.line "[2001:db8::1]:8333" "99.00%" "700000"]
  = Ok (["[2001:db8::1]:8333"], [asn_error (SampleNode.v4 "10.0.0.3" 0)]).
Proof. vm_compute. reflexivity. Qed.

(** A first field that is no address is rejected before the agent is read,
    also on a line of twelve fields. *)
Example parseline_no_address :
  parseline (Sample.line12 "::]:8333") = Ok None.
Proof. vm_compute. reflexivity. Qed.

(** * Further properties of the parser *)

(** ** When a line is accepted *)

Lemma parseline_inv line x :
  parseline line = Ok (Some x) ->
  let sline := Py.split line in
  (13 <= length sline)%nat
  /\ parse_address (field_at sline 0)
     = Ok (Some (net x, ip x, port x, ipnum x, sortkey x))
  /\ conversions sline
     = Ok (uptime x, lastsuccess x, version x, service x, blocks x)
  /\ agent x = Py.drop_first (field_at sline 11) +:+ Py.drop_last (field_at sline 12).
Proof.
  intros H sline. pose proof (parseline_Some_long _ _ H) as Hl. split; [done|].
  rewrite parseline_long in H by done. fold sline in H.
  apply bind_Ok in H as ([[[[[n z] p] i] k]|] & -> & H); [|done].
  apply bind_Ok in H as ([[[[u l] v] s] b] & -> & [= <-]). done.
Qed.

(** X1. A line is accepted with the record [x] exactly when it has thirteen
    fields or more, the address part accepts field 0 with the five address
    entries of [x], the fields 7, 2, 10, 9 and 8 convert to the uptime, last
    success, version, services and height of [x], and the agent of [x] is
    field 11 without its first character followed by field 12 without its
    last character. *)
Theorem parseline_accepts_iff line x :
  parseline line = Ok (Some x) <->
  (13 <= length (Py.split line))%nat
  /\ parse_address (field_at (Py.split line) 0)
     = Ok (Some (net x, ip x, port x, ipnum x, sortkey x))
  /\ conversions (Py.split line)
     = Ok (uptime x, lastsuccess x, version x, service x, blocks x)
  /\ agent x = Py.drop_first (field_at (Py.split line) 11)
               +:+ Py.drop_last (field_at (Py.split line) 12).
Proof.
  split; [apply parseline_inv|].
  intros (Hl & Ha & Hc & Hg). rewrite parseline_long by done.
  rewrite Ha. cbn [mbind outcome_bind]. rewrite Hc. cbn [mbind outcome_bind].
  rewrite <- Hg. by destruct x.
Qed.

(** X2. [parseline] reads the fields 0, 2 and 7 to 12 only: two lines of
    thirteen fields or more that agree on these give the same result,
    whatever their other fields are. In particular the flag in field 1
    decides nothing. *)
Theorem parseline_fields_read line1 line2 :
  (13 <= length (Py.split line1))%nat ->
  (13 <= length (Py.split line2))%nat ->
  (forall i, i ∈ [0; 2; 7; 8; 9; 10; 11; 12]%nat ->
     field_at (Py.split line1) i = field_at (Py.split line2) i) ->
  parseline line1 = parseline line2.
Proof.
  intros H1 H2 Hf. rewrite !parseline_long by done. unfold conversions.
  rewrite (Hf 0%nat), (Hf 2%nat), (Hf 7%nat), (Hf 8%nat), (Hf 9%nat),
    (Hf 10%nat), (Hf 11%nat), (Hf 12%nat); [done|set_solver..].
Qed.

Lemma parseline_fields_read_witness :
  parseline ("1.2.3.4:8333 0 1614000000 - - - - 100.00% 700000 0000000d 70015 "
             +:+ Sample.dq +:+ "/ZMGCore:2.2.0/ " +:+ Sample.dq +:+ " more fields")
  = parseline Sample.good.
Proof.
  apply parseline_fields_read.
  - vm_compute. lia.
  - vm_compute. lia.
  - intros i Hi.
    repeat (apply elem_of_cons in Hi as [->|Hi]; [vm_compute; reflexivity|]).
    exfalso. by apply elem_of_nil in Hi.
Defined.

(** ** The address of an accepted record *)

Lemma octets_four m N :
  octets m [0; 1; 2; 3]%nat 0 = Ok (Some N) ->
  exists a b c d,
    Py.int (group m 2) = Ok a /\ Py.int (group m 3) = Ok b
    /\ Py.int (group m 4) = Ok c /\ Py.int (group m 5) = Ok d
    /\ 0 <= a <= 255 /\ 0 <= b <= 255 /\ 0 <= c <= 255 /\ 0 <= d <= 255
    /\ N = a * 2 ^ 24 + b * 2 ^ 16 + c * 2 ^ 8 + d.
Proof.
  cbn [octets Nat.add]. intros H.
  apply bind_Ok in H as (a & Ha & H).
  destruct (Z.ltb_spec a 0), (Z.ltb_spec 255 a); try done. cbn [orb] in H.
  apply bind_Ok in H as (b & Hb & H).
  destruct (Z.ltb_spec b 0), (Z.ltb_spec 255 b); try done. cbn [orb] in H.
  apply bind_Ok in H as (c & Hc & H).
  destruct (Z.ltb_spec c 0), (Z.ltb_spec 255 c); try done. cbn [orb] in H.
  apply bind_Ok in H as (d & Hd & H).
  destruct (Z.ltb_spec d 0), (Z.ltb_spec 255 d); try done. cbn [orb] in H.
  injection H as <-. exists a, b, c, d.
  change (8 * (3 - Z.of_nat 0)) with 24. change (8 * (3 - Z.of_nat 1)) with 16.
  change (8 * (3 - Z.of_nat 2)) with 8. change (8 * (3 - Z.of_nat 3)) with 0.
  rewrite !Z.shiftl_mul_pow2 by lia.
  repeat split; try done; try lia.
Qed.

Lemma parse_address_ipv4 f z p i k :
  parse_address f = Ok (Some (ipv4, z, p, i, k)) ->
  exists m N a b c d,
    PATTERN_IPV4 f = Some m /\ z = group m 1
    /\ Py.int (group m 2) = Ok a /\ Py.int (group m 3) = Ok b
    /\ Py.int (group m 4) = Ok c /\ Py.int (group m 5) = Ok d
    /\ 0 <= a <= 255 /\ 0 <= b <= 255 /\ 0 <= c <= 255 /\ 0 <= d <= 255
    /\ N = a * 2 ^ 24 + b * 2 ^ 16 + c * 2 ^ 8 + d
    /\ 0 < N < 2 ^ 32 /\ i = Some N /\ k = KInt N
    /\ Py.int (group m 6) = Ok p /\ 0 <= p.
Proof.
  unfold parse_address. destruct (PATTERN_IPV4 f) as [m|] eqn:H4.
  - destruct (octets m [0; 1; 2; 3]%nat 0) as [[N|]|] eqn:Ho; simpl; [|done..].
    destruct (Z.eqb_spec N 0) as [|HN]; [done|].
    destruct (Py.int (group m 6)) as [q|] eqn:Hq; simpl; [|done].
    intros [= <- <- <- <-].
    destruct (octets_four m N Ho) as (a & b & c & d & ? & ? & ? & ? & ? & ? & ? & ? & ?).
    apply PATTERN_IPV4_groups in H4 as (ga & gb & gc & gd & gp & -> & _ & _ & _ & _ & Hall & Hne).
    change (group _ 6) with gp in Hq.
    pose proof (int_run_nonneg _ _ Hall Hne Hq).
    exists [ga +:+ "." +:+ gb +:+ "." +:+ gc +:+ "." +:+ gd; ga; gb; gc; gd; gp],
      N, a, b, c, d.
    repeat split; try done; try lia.
  - destruct (PATTERN_IPV6 f) as [m|].
    + destruct (bool_decide _); [done|].
      by destruct (Py.int (group m 2)).
    + destruct (PATTERN_ONION f) as [m|]; [|done].
      by destruct (Py.int (group m 2)).
Qed.

(** X3. In an accepted IPv4 record the number is the four octets of the
    address, each between 0 and 255, in base 256; it is above 0 and below
    [2 ^ 32]; it is the sort key as well; and the port is not negative. *)
Theorem parseline_ipv4_number line x :
  parseline line = Ok (Some x) -> net x = ipv4 ->
  exists m a b c d,
    PATTERN_IPV4 (field_at (Py.split line) 0) = Some m
    /\ ip x = group m 1
    /\ Py.int (group m 2) = Ok a /\ Py.int (group m 3) = Ok b
    /\ Py.int (group m 4) = Ok c /\ Py.int (group m 5) = Ok d
    /\ 0 <= a <= 255 /\ 0 <= b <= 255 /\ 0 <= c <= 255 /\ 0 <= d <= 255
    /\ ipnum x = Some (a * 2 ^ 24 + b * 2 ^ 16 + c * 2 ^ 8 + d)
    /\ sortkey x = KInt (a * 2 ^ 24 + b * 2 ^ 16 + c * 2 ^ 8 + d)
    /\ 0 < a * 2 ^ 24 + b * 2 ^ 16 + c * 2 ^ 8 + d < 2 ^ 32
    /\ Py.int (group m 6) = Ok (port x) /\ 0 <= port x.
Proof.
  intros (_ & Ha & _)%parseline_inv Hnet. rewrite Hnet in Ha.
  apply parse_address_ipv4 in Ha
    as (m & N & a & b & c & d & ? & ? & ? & ? & ? & ? & ? & ? & ? & ? & -> & ? & ? & ? & ? & ?).
  exists m, a, b, c, d. repeat split; try done; try lia.
Qed.

Lemma parseline_ipv4_number_witness :
  exists m a b c d,
    PATTERN_IPV4 (field_at (Py.split Sample.good) 0) = Some m
    /\ ip (SampleNode.v4 "1.2.3.4" 16909060) = group m 1
    /\ Py.int (group m 2) = Ok a /\ Py.int (group m 3) = Ok b
    /\ Py.int (group m 4) = Ok c /\ Py.int (group m 5) = Ok d
    /\ 0 <= a <= 255 /\ 0 <= b <= 255 /\ 0 <= c <= 255 /\ 0 <= d <= 255
    /\ ipnum (SampleNode.v4 "1.2.3.4" 16909060)
       = Some (a * 2 ^ 24 + b * 2 ^ 16 + c * 2 ^ 8 + d)
    /\ sortkey (SampleNode.v4 "1.2.3.4" 16909060)
       = KInt (a * 2 ^ 24 + b * 2 ^ 16 + c * 2 ^ 8 + d)
    /\ 0 < a * 2 ^ 24 + b * 2 ^ 16 + c * 2 ^ 8 + d < 2 ^ 32
    /\ Py.int (group m 6) = Ok (port (SampleNode.v4 "1.2.3.4" 16909060))
    /\ 0 <= port (SampleNode.v4 "1.2.3.4" 16909060).
Proof.
  apply (parseline_ipv4_number Sample.good (SampleNode.v4 "1.2.3.4" 16909060)).
  - vm_compute. reflexivity.
  - reflexivity.
Defined.

Lemma parse_address_text f n z p i k :
  parse_address f = Ok (Some (n, z, p, i, k)) -> n <> ipv4 ->
  i = None /\ k = KStr z /\ 0 <= p /\ (n = ipv6 -> z <> "::")
  /\ exists m, (if decide (n = ipv6) then PATTERN_IPV6 f else PATTERN_ONION f) = Some m
               /\ z = group m 1 /\ Py.int (group m 2) = Ok p.
Proof.
  unfold parse_address. destruct (PATTERN_IPV4 f) as [m|] eqn:H4.
  - destruct (octets m [0; 1; 2; 3]%nat 0) as [[N|]|]; simpl; [|done..].
    destruct (N =? 0); [done|].
    destruct (Py.int (group m 6)); simpl; [|done]. by intros [= <- _ _ _ _].
  - destruct (PATTERN_IPV6 f) as [m|] eqn:H6.
    + case_bool_decide as Hu; [done|].
      destruct (Py.int (group m 2)) as [q|] eqn:Hq; simpl; [|done].
      intros [= <- <- <- <- <-] _.
      apply PATTERN_IPV6_groups in H6 as (h & gp & -> & Hall & Hne).
      change (group _ 2) with gp in Hq.
      pose proof (int_run_nonneg _ _ Hall Hne Hq).
      repeat split; try done.
      * intros _ E. apply Hu. rewrite E. by left.
      * by exists [h; gp].
    + destruct (PATTERN_ONION f) as [m|] eqn:Ho; [|done].
      destruct (Py.int (group m 2)) as [q|] eqn:Hq; simpl; [|done].
      intros [= <- <- <- <- <-] _.
      apply PATTERN_ONION_groups in Ho as (h & gp & -> & Hall & Hne).
      change (group _ 2) with gp in Hq.
      pose proof (int_run_nonneg _ _ Hall Hne Hq).
      repeat split; try done. by exists [h; gp].
Qed.

(** The port of an accepted record is a number of at most
    [int_max_str_digits] digits: printing it stays within the bound of the
    conversion to decimal. *)
Lemma parse_address_port_bound f n z p i k :
  parse_address f = Ok (Some (n, z, p, i, k)) -> 0 <= p < 10 ^ Py.int_max_str_digits.
Proof.
  unfold parse_address. destruct (PATTERN_IPV4 f) as [m|] eqn:H4.
  - destruct (octets m [0; 1; 2; 3]%nat 0) as [[N|]|]; simpl; [|done..].
    destruct (N =? 0); [done|].
    destruct (Py.int (group m 6)) as [q|] eqn:Hq; simpl; [|done].
    intros [= _ _ <- _ _].
    apply PATTERN_IPV4_groups in H4 as (ga & gb & gc & gd & gp & -> & _ & _ & _ & _ & Hall & Hne).
    change (group _ 6) with gp in Hq. by eapply int_run_bound.
  - destruct (PATTERN_IPV6 f) as [m|] eqn:H6.
    + destruct (bool_decide _); [done|].
      destruct (Py.int (group m 2)) as [q|] eqn:Hq; simpl; [|done].
      intros [= _ _ <- _ _].
      apply PATTERN_IPV6_groups in H6 as (h & gp & -> & Hall & Hne).
      change (group _ 2) with gp in Hq. by eapply int_run_bound.
    + destruct (PATTERN_ONION f) as [m|] eqn:Ho; [|done].
      destruct (Py.int (group m 2)) as [q|] eqn:Hq; simpl; [|done].
      intros [= _ _ <- _ _].
      apply PATTERN_ONION_groups in Ho as (h & gp & -> & Hall & Hne).
      change (group _ 2) with gp in Hq. by eapply int_run_bound.
Qed.

Lemma parseline_port_bound line x :
  parseline line = Ok (Some x) -> 0 <= port x < 10 ^ Py.int_max_str_digits.
Proof. intros (_ & Ha & _)%parseline_inv. by eapply parse_address_port_bound. Qed.

(** X4. In an accepted IPv6 or Onion record there is no number, the sort key
    is the textual address, which is group 1 of the match of field 0, the
    port is not negative, and an IPv6 address is never [::]. *)
Theorem parseline_text_address line x :
  parseline line = Ok (Some x) -> net x <> ipv4 ->
  ipnum x = None /\ sortkey x = KStr (ip x) /\ 0 <= port x
  /\ (net x = ipv6 -> ip x <> "::")
  /\ exists m,
       (if decide (net x = ipv6)
        then PATTERN_IPV6 (field_at (Py.split line) 0)
        else PATTERN_ONION (field_at (Py.split line) 0)) = Some m
       /\ ip x = group m 1 /\ Py.int (group m 2) = Ok (port x).
Proof.
  intros (_ & Ha & _)%parseline_inv Hnet. by eapply parse_address_text.
Qed.

Lemma parseline_text_address_witness :
  ipnum SampleNode.d = None /\ sortkey SampleNode.d = KStr (ip SampleNode.d)
  /\ 0 <= port SampleNode.d
  /\ (net SampleNode.d = ipv6 -> ip SampleNode.d <> "::")
  /\ exists m,
       (if decide (net SampleNode.d = ipv6)
        then PATTERN_IPV6
               (field_at (Py.split (Sample.line "[2001:db8::1]:8333" "100.00%" "700000")) 0)
        else PATTERN_ONION
               (field_at (Py.split (Sample.line "[2001:db8::1]:8333" "100.00%" "700000")) 0))
       = Some m
       /\ ip SampleNode.d = group m 1 /\ Py.int (group m 2) = Ok (port SampleNode.d).
Proof.
  apply (parseline_text_address
           (Sample.line "[2001:db8::1]:8333" "100.00%" "700000") SampleNode.d).
  - vm_compute. reflexivity.
  - discriminate.
Defined.

(** ** Octets out of range *)

Lemma octets_reject m range i o :
  (forall j, j ∈ range -> octet_run (group m (j + 2))) ->
  i ∈ range -> Py.int (group m (i + 2)) = Ok o -> 255 < o ->
  forall acc, octets m range acc = Ok None.
Proof.
  induction range as [|j range IH]; intros Hrun Hi Ho Hbig acc;
    [by apply elem_of_nil in Hi|].
  cbn [octets].
  destruct (int_of_octet (group m (j + 2))) as (oj & Hoj & _); [apply Hrun; by left|].
  rewrite Hoj.
  cbn [mbind outcome_bind].
  destruct (_ || _) eqn:Hc; [done|].
  apply elem_of_cons in Hi as [->|Hi].
  - assert (oj = o) as -> by congruence. apply orb_false_iff in Hc as [_ Hc]. lia.
  - apply IH; [|done..]. intros k Hk. apply Hrun. by right.
Qed.

(** X5. A line whose first field has the shape of an IPv4 address with an
    octet above 255 is rejected: [parseline] returns [None], without
    raising. *)
Theorem parseline_octet_range line field rest m i o :
  Py.split line = field :: rest ->
  PATTERN_IPV4 field = Some m ->
  i ∈ [0; 1; 2; 3]%nat -> Py.int (group m (i + 2)) = Ok o -> 255 < o ->
  parseline line = Ok None.
Proof.
  intros Hs Hm Hi Ho Hbig. unfold parseline. rewrite Hs.
  destruct (_ <? _)%nat; [done|].
  change (Py.index (field :: rest) 0) with (Ok field). cbn [mbind outcome_bind].
  unfold parse_address. rewrite Hm.
  rewrite (octets_reject m [0; 1; 2; 3]%nat i o); [done| |done..].
  apply PATTERN_IPV4_groups in Hm as (a & b & c & d & p & -> & ? & ? & ? & ? & ?).
  intros j Hj. repeat (apply elem_of_cons in Hj as [->|Hj]; [done|]).
  by apply elem_of_nil in Hj.
Qed.

Lemma parseline_octet_range_witness :
  parseline (Sample.line "1.2.256.4:8333" "100.00%" "700000") = Ok None.
Proof.
  apply (parseline_octet_range _ "1.2.256.4:8333"
           (List.tl (Py.split (Sample.line "1.2.256.4:8333" "100.00%" "700000")))
           ["1.2.256.4"; "1"; "2"; "256"; "4"; "8333"] 2%nat 256).
  - vm_compute. reflexivity.
  - vm_compute. reflexivity.
  - set_solver.
  - vm_compute. reflexivity.
  - lia.
Defined.

(** ** The three address grammars *)

Lemma span_app p s d r : Py.span p s = (d, r) -> s = d +:+ r.
Proof.
  revert d r. induction s as [|c s IH]; intros d r; simpl.
  - by intros [= <- <-].
  - destruct (p c).
    + destruct (Py.span p s) as [d' r'] eqn:Hs. intros [= <- <-].
      simpl. by rewrite (IH d' r').
    + by intros [= <- <-].
Qed.

Lemma span_bound q d c r :
  q c = false -> (String.length (Py.span q (d +:+ String c r)).1 <= String.length d)%nat.
Proof.
  intros Hc. induction d as [|a d IH]; simpl.
  - by rewrite Hc.
  - destruct (q a); simpl; [|lia].
    destruct (Py.span q (d +:+ String c r)) as [h t]. simpl in *. lia.
Qed.

Lemma literal_app pre s r : literal pre s = Some r -> s = pre +:+ r.
Proof.
  revert s. induction pre as [|a pre IH]; intros [|b s]; simpl; try done.
  - by intros [= <-].
  - by intros [= <-].
  - destruct (Ascii.eqb_spec a b) as [->|]; [|done]. intros H. by rewrite (IH s H).
Qed.

Lemma PATTERN_IPV4_not_ONION s m : PATTERN_IPV4 s = Some m -> PATTERN_ONION s = None.
Proof.
  unfold PATTERN_IPV4. intros ([a r1] & Ha & _)%bind_Some.
  unfold octet_then in Ha. destruct (Py.span_digits s) as [d r] eqn:Hs.
  destruct (_ && _) eqn:Hl; [|done].
  apply bind_Some in Ha as (r' & Hr & [= <- <-]).
  apply span_app in Hs as ->. apply literal_app in Hr as ->.
  change ("." +:+ r') with (String "."%char r').
  apply andb_true_iff in Hl as [_ Hl%Nat.leb_le].
  pose proof (span_bound base32_char d "."%char r' eq_refl) as Hb.
  unfold PATTERN_ONION. simpl in Hb.
  destruct (Py.span base32_char (d +:+ String "."%char r')) as [h t]. simpl in Hb.
  destruct (Nat.eqb_spec (String.length h) 16); [lia|done].
Qed.

Lemma PATTERN_IPV6_not_ONION s m : PATTERN_IPV6 s = Some m -> PATTERN_ONION s = None.
Proof.
  unfold PATTERN_IPV6. intros (r0 & ->%literal_app & _)%bind_Some. done.
Qed.

(** X6. The three address grammars exclude each other: a field matches at
    most one of the patterns, so the order in which [parseline] tries them
    decides nothing. *)
Theorem address_patterns_exclusive s :
  (is_Some (PATTERN_IPV4 s) -> PATTERN_IPV6 s = None /\ PATTERN_ONION s = None)
  /\ (is_Some (PATTERN_IPV6 s) -> PATTERN_IPV4 s = None /\ PATTERN_ONION s = None)
  /\ (is_Some (PATTERN_ONION s) -> PATTERN_IPV4 s = None /\ PATTERN_IPV6 s = None).
Proof.
  split; [|split].
  - intros [m Hm]. split; [|by eapply PATTERN_IPV4_not_ONION].
    destruct (PATTERN_IPV6 s) as [m6|] eqn:H6; [|done].
    apply PATTERN_IPV6_not_IPV4 in H6. congruence.
  - intros [m Hm]. split;
      [by eapply PATTERN_IPV6_not_IPV4|by eapply PATTERN_IPV6_not_ONION].
  - intros [m Hm]. split.
    + destruct (PATTERN_IPV4 s) as [m4|] eqn:H4; [|done].
      apply PATTERN_IPV4_not_ONION in H4. congruence.
    + destruct (PATTERN_IPV6 s) as [m6|] eqn:H6; [|done].
      apply PATTERN_IPV6_not_ONION in H6. congruence.
Qed.

(** * Further properties of the filters *)

(** ** The collision filter *)

Lemma occ_perm k l1 l2 : l1 ≡ₚ l2 -> occ k l1 = occ k l2.
Proof. intros H. unfold occ. by rewrite H. Qed.

Lemma occ_NoDup l x :
  NoDup (sortkey <$> l) -> x ∈ l -> occ (sortkey x) l = 1%nat.
Proof.
  induction l as [|y l IH]; [by intros _ ?%elem_of_nil|].
  rewrite fmap_cons. intros [Hy Hl]%NoDup_cons Hx. rewrite occ_cons.
  apply elem_of_cons in Hx as [->|Hx].
  - rewrite decide_True by done. f_equal. apply occ_none.
    intros z Hz E. apply Hy. rewrite <- E. by apply list_elem_of_fmap_2.
  - rewrite decide_False; [by apply IH|].
    intros E. apply Hy. rewrite E. by apply list_elem_of_fmap_2.
Qed.

Lemma filtermultiport_NoDup zmg : NoDup (sortkey <$> filtermultiport zmg).
Proof.
  rewrite filtermultiport_filter. apply NoDup_alt. intros i j k Hi Hj.
  apply list_lookup_fmap_Some_1 in Hi as (x & -> & Hx).
  apply list_lookup_fmap_Some_1 in Hj as (y & Hk & Hy).
  destruct (decide (i = j)) as [|Hij]; [done|].
  pose proof (occ_two _ i j x y Hij Hx Hy Hk) as H2.
  pose proof (occ_sublist (sortkey x) _ _
                (sublist_filter (fun x => occ (sortkey x) zmg = 1%nat) zmg)) as Hs.
  apply list_elem_of_lookup_2, list_elem_of_filter in Hx as [H1 _]. lia.
Qed.

Lemma filtermultiport_id zmg :
  NoDup (sortkey <$> zmg) -> filtermultiport zmg = zmg.
Proof.
  intros Hnd. rewrite filtermultiport_filter.
  rewrite (filter_ext_in _ (fun _ => True)).
  - induction zmg as [|x l IH]; [done|].
    rewrite filter_cons_True by done. f_equal. apply IH.
    rewrite fmap_cons in Hnd. by apply NoDup_cons in Hnd as [_ ?].
  - intros x Hx. split; [done|]. intros _. by apply occ_NoDup.
Qed.

(** X7. The collision filter does nothing to a list without two records of
    one key; hence applying it twice is applying it once. It never makes a
    list longer, and the records it keeps do not depend on the order of its
    input. *)
Theorem filtermultiport_composes :
  (forall zmg, NoDup (sortkey <$> zmg) -> filtermultiport zmg = zmg)
  /\ (forall zmg, filtermultiport (filtermultiport zmg) = filtermultiport zmg)
  /\ (forall zmg, (length (filtermultiport zmg) <= length zmg)%nat)
  /\ (forall zmg1 zmg2, zmg1 ≡ₚ zmg2 -> filtermultiport zmg1 ≡ₚ filtermultiport zmg2).
Proof.
  split; [apply filtermultiport_id|]. split; [|split].
  - intros zmg. apply filtermultiport_id, filtermultiport_NoDup.
  - intros zmg. apply sublist_length, filtermultiport_sublist.
  - intros l1 l2 Hp. rewrite !filtermultiport_filter.
    rewrite (list_filter_iff (fun x => occ (sortkey x) l1 = 1%nat)
               (fun x => occ (sortkey x) l2 = 1%nat)).
    + by rewrite Hp.
    + intros x. by rewrite (occ_perm _ _ _ Hp).
Qed.

(** X8. The collision filter runs after the quality gates, so only the
    records that pass the gates count: a parsed record reaches the
    origin-diversity filter exactly when it passes the gates and no other
    parsed record that passes them has its key. A record that fails the
    gates removes nothing. *)
Theorem collision_after_quality (parsed : list (option node)) x :
  x ∈ filtermultiport (candidates parsed) <->
  x ∈ omap id parsed /\ passes_gates x
  /\ occ (sortkey x) (quality_filter (omap id parsed)) = 1%nat.
Proof.
  rewrite filtermultiport_filter, list_elem_of_filter, candidates_elem_of.
  unfold candidates. rewrite (occ_perm _ _ _ (sort_by_perm _ _)). tauto.
Qed.

(** ** Which records the origin-diversity filter keeps *)

Section FirstPerOrigin.
Variable resolve : string -> option Z.
Variables max_per_asn max_total : Z.
Hypothesis Hcap : 0 <= max_per_asn.

(** One iteration, seen from outside: the counters follow the records looked
    up, the accepted list grows by the record exactly when
    [first_per_origin] takes it, and a diagnostic is written exactly when
    the lookup fails. *)
Lemma asn_step_seen seen st x l :
  counts_seen resolve max_per_asn seen st ->
  counts_seen resolve max_per_asn (seen ++ [x]) (asn_step resolve max_per_asn st x)
  /\ result (asn_step resolve max_per_asn st x)
     ++ first_per_origin resolve max_per_asn (seen ++ [x]) l
     = result st ++ first_per_origin resolve max_per_asn seen (x :: l)
  /\ stderr (asn_step resolve max_per_asn st x)
     = stderr st ++ match resolve (ip x) with Some _ => [] | None => [asn_error x] end.
Proof.
  intros Hc. unfold asn_step. cbn [first_per_origin].
  destruct (resolve (ip x)) as [asn|] eqn:Hx.
  - set (count := match asn_count st !! asn with
                  | Some _ => asn_count st
                  | None => <[asn:=0]> (asn_count st)
                  end).
    set (r := resolved_to resolve asn seen).
    assert (count !! asn = Some (Z.min (Z.of_nat r) max_per_asn)) as Hn.
    { unfold count. pose proof (Hc asn) as Ha.
      destruct (asn_count st !! asn) as [n|] eqn:E.
      - by rewrite E, Ha.
      - rewrite lookup_insert_eq. fold r in Ha. rewrite Ha. f_equal. lia. }
    assert (forall a, a <> asn -> count !! a = asn_count st !! a) as Hother.
    { intros a Hne. unfold count. destruct (asn_count st !! asn); [done|].
      by rewrite lookup_insert_ne. }
    assert (forall a, a <> asn ->
              resolved_to resolve a (seen ++ [x]) = resolved_to resolve a seen) as Hres.
    { intros a Hne. rewrite resolved_to_snoc, decide_False by congruence. lia. }
    assert (resolved_to resolve asn (seen ++ [x]) = S r) as Hres'.
    { rewrite resolved_to_snoc, decide_True by done. fold r. lia. }
    rewrite Hn. cbn [from_option id].
    destruct (Z.eqb_spec (Z.min (Z.of_nat r) max_per_asn) max_per_asn) as [Heq|Hneq];
      cbn [result asn_count stderr].
    + destruct (Z.ltb_spec (Z.of_nat r) max_per_asn); [lia|].
      split; [|by rewrite app_nil_r]. intros a. cbn [asn_count].
      destruct (decide (a = asn)) as [->|Hne].
      * rewrite Hn, Hres'. lia.
      * rewrite Hother, Hres by done. apply Hc.
    + destruct (Z.ltb_spec (Z.of_nat r) max_per_asn); [|lia].
      split; [|by rewrite <- (assoc_L (++)), app_nil_r]. intros a. cbn [asn_count].
      destruct (decide (a = asn)) as [->|Hne].
      * rewrite lookup_insert_eq, Hres'. lia.
      * rewrite lookup_insert_ne, Hother, Hres by done. apply Hc.
  - cbn [result asn_count stderr]. split; [|done]. intros a. cbn [asn_count].
    rewrite resolved_to_snoc, decide_False by congruence.
    rewrite Nat.add_0_r. apply Hc.
Qed.

Lemma asn_loop_first l : forall seen st,
  counts_seen resolve max_per_asn seen st ->
  Z.of_nat (length (result st)) <= max_total ->
  result (asn_loop resolve max_per_asn max_total l st)
  = take (Z.to_nat max_total)
      (result st ++ first_per_origin resolve max_per_asn seen l).
Proof.
  induction l as [|x l IH]; intros seen st Hc Hlen.
  - cbn [asn_loop first_per_origin]. rewrite app_nil_r, take_ge; [done|lia].
  - cbn [asn_loop].
    destruct (Z.eqb_spec (Z.of_nat (length (result st))) max_total) as [Heq|Hne].
    + rewrite take_app_length'; [done|lia].
    + destruct (asn_step_seen seen st x l Hc) as (Hc' & Hres & _).
      rewrite (IH (seen ++ [x])), Hres; [done..|].
      apply (f_equal length) in Hres. rewrite !length_app in Hres.
      cbn [first_per_origin] in Hres.
      destruct (resolve (ip x)) as [asn|];
        [destruct (_ <? _)|]; simpl in Hres; lia.
Qed.



Lemma counts_seen_init :
  counts_seen resolve max_per_asn [] {| result := []; asn_count := ∅; stderr := [] |}.
Proof. intros asn. cbn [asn_count]. by rewrite lookup_empty. Qed.

End FirstPerOrigin.

(** X9. With caps that are not negative, the IPv4 records [filterbyasn]
    keeps are found in two steps: in the order of the input, a record is
    taken when its lookup answers and fewer than [max_per_asn] earlier
    records have the same origin; of the records taken, the first
    [max_total] are kept. *)
Theorem filterbyasn_first_per_origin resolve zmg max_per_asn max_total :
  0 <= max_per_asn -> 0 <= max_total ->
  (filterbyasn resolve zmg max_per_asn max_total).1
  = take (Z.to_nat max_total)
      (first_per_origin resolve max_per_asn [] (by_net ipv4 zmg))
    ++ by_net ipv6 zmg ++ by_net onion zmg.
Proof.
  intros Hp Ht. unfold filterbyasn. cbn [fst].
  rewrite (asn_loop_first resolve max_per_asn max_total Hp _ []); [done|..].
  - apply counts_seen_init.
  - simpl. lia.
Qed.

Lemma filterbyasn_first_per_origin_witness :
  (filterbyasn (fun a => if String.eqb a "1.2.3.6" then Some 64501 else Some 64500)
     [SampleNode.a; SampleNode.b; SampleNode.v4 "1.2.3.7" 16909063; SampleNode.c;
      SampleNode.v4 "1.2.3.8" 16909064] 2 3).1
  = take (Z.to_nat 3)
      (first_per_origin
         (fun a => if String.eqb a "1.2.3.6" then Some 64501 else Some 64500) 2 []
         (by_net ipv4
            [SampleNode.a; SampleNode.b; SampleNode.v4 "1.2.3.7" 16909063;
             SampleNode.c; SampleNode.v4 "1.2.3.8" 16909064]))
    ++ by_net ipv6
         [SampleNode.a; SampleNode.b; SampleNode.v4 "1.2.3.7" 16909063;
          SampleNode.c; SampleNode.v4 "1.2.3.8" 16909064]
    ++ by_net onion
         [SampleNode.a; SampleNode.b; SampleNode.v4 "1.2.3.7" 16909063;
          SampleNode.c; SampleNode.v4 "1.2.3.8" 16909064].
Proof. apply filterbyasn_first_per_origin; lia. Defined.

(** The third record of the first origin is passed over, the record of the
    second origin is kept. *)
Example filterbyasn_passes_over :
  (filterbyasn (fun a => if String.eqb a "1.2.3.6" then Some 64501 else Some 64500)
     [SampleNode.a; SampleNode.b; SampleNode.v4 "1.2.3.7" 16909063; SampleNode.c;
      SampleNode.v4 "1.2.3.8" 16909064] 2 3).1
  = [SampleNode.a; SampleNode.b; SampleNode.c].
Proof. vm_compute. reflexivity. Qed.



(** ** The lookups of the origin-diversity filter *)

Lemma asn_loop_ext r1 r2 max_per_asn max_total l : forall st,
  (forall x, x ∈ l -> r1 (ip x) = r2 (ip x)) ->
  asn_loop r1 max_per_asn max_total l st = asn_loop r2 max_per_asn max_total l st.
Proof.
  induction l as [|x l IH]; intros st Hl; [done|]. cbn [asn_loop].
  destruct (_ =? _); [done|].
  assert (asn_step r1 max_per_asn st x = asn_step r2 max_per_asn st x) as ->.
  { unfold asn_step. rewrite (Hl x); [done|by left]. }
  apply IH. intros y Hy. apply Hl. by right.
Qed.

(** X11. [filterbyasn] looks up the addresses of the IPv4 records only: two
    oracles that agree on these give the same list and the same
    diagnostics. *)
Theorem filterbyasn_lookups resolve1 resolve2 zmg max_per_asn max_total :
  (forall x, x ∈ zmg -> net x = ipv4 -> resolve1 (ip x) = resolve2 (ip x)) ->
  filterbyasn resolve1 zmg max_per_asn max_total
  = filterbyasn resolve2 zmg max_per_asn max_total.
Proof.
  intros H. unfold filterbyasn.
  rewrite (asn_loop_ext resolve1 resolve2); [done|].
  intros x [Hn Hx]%list_elem_of_filter. by apply H.
Qed.

Lemma filterbyasn_lookups_witness :
  filterbyasn (fun a => if String.eqb a "2001:db8::1" then None else Some 64500)
    [SampleNode.a; SampleNode.d] 2 512
  = filterbyasn (fun _ => Some 64500) [SampleNode.a; SampleNode.d] 2 512.
Proof.
  apply filterbyasn_lookups. intros x Hx Hn.
  apply elem_of_cons in Hx as [->|Hx]; [reflexivity|].
  apply elem_of_cons in Hx as [->|Hx]; [discriminate|].
  exfalso. by apply elem_of_nil in Hx.
Defined.

(** * Further properties of [main] *)

Lemma mapM_all_Ok {A B} (f : A -> outcome B) l :
  Forall (fun a => ~ raises (f a)) l -> exists r, mapM f l = Ok r.
Proof.
  induction 1 as [|a l Ha _ [r IH]]; [by exists []|].
  simpl. destruct (f a) as [b|e]; [|done]. simpl. rewrite IH. simpl. eauto.
Qed.

Lemma mapM_first_Raise {A B} (f : A -> outcome B) pre a post e :
  Forall (fun a => ~ raises (f a)) pre -> f a = Raise e ->
  mapM f (pre ++ a :: post) = Raise e.
Proof.
  intros Hpre Ha. induction Hpre as [|b pre Hb _ IH]; simpl.
  - by rewrite Ha.
  - destruct (f b); [|done]. simpl. by rewrite IH.
Qed.

(** X12. [main] ends without an exception exactly when [parseline] raises
    on no line of the input, whatever the lookups answer; otherwise it ends
    with the exception of the first line on which [parseline] raises, and
    prints nothing. *)
Theorem main_ends resolve lines :
  ((exists out err, main resolve lines = Ok (out, err))
   <-> Forall (fun line => ~ raises (parseline line)) lines)
  /\ (forall pre line post e,
        lines = pre ++ line :: post ->
        Forall (fun line => ~ raises (parseline line)) pre ->
        parseline line = Raise e ->
        main resolve lines = Raise e).
Proof.
  split; [split|].
  - intros (out & err & H). apply Forall_forall. intros line Hin Hr.
    pose proof (mapM_raises parseline lines line Hin Hr) as Hm.
    unfold main in H. by destruct (mapM parseline lines).
  - intros [parsed Hp]%mapM_all_Ok. unfold main. rewrite Hp.
    cbn [mbind outcome_bind]. destruct (select resolve parsed) as [zmg err]. eauto.
  - intros pre line post e -> Hpre He. unfold main.
    by rewrite (mapM_first_Raise parseline pre line post e Hpre He).
Qed.

Lemma by_net_partition zmg :
  by_net ipv4 zmg ++ by_net ipv6 zmg ++ by_net onion zmg ≡ₚ zmg.
Proof.
  unfold by_net. induction zmg as [|x l IH]; [done|].
  rewrite !filter_cons. destruct (net x) eqn:Hn; repeat case_decide; try congruence.
  - simpl. by rewrite IH.
  - rewrite <- app_comm_cons, <- Permutation_middle. by rewrite IH.
  - rewrite (assoc_L (++)), <- Permutation_middle, <- (assoc_L (++)). by rewrite IH.
Qed.

Lemma by_net_all n l : Forall (fun x => net x = n) l -> by_net n l = l.
Proof.
  unfold by_net. induction 1 as [|x l Hx _ IH]; [done|].
  by rewrite filter_cons_True, IH.
Qed.

Lemma by_net_other n k l : n <> k -> by_net n (by_net k l) = [].
Proof.
  intros Hne. unfold by_net. induction l as [|x l IH]; [done|].
  rewrite filter_cons. case_decide as Hk; [|done].
  rewrite filter_cons_False; [done|congruence].
Qed.

Lemma by_net_app n l1 l2 : by_net n (l1 ++ l2) = by_net n l1 ++ by_net n l2.
Proof. apply filter_app. Qed.

Lemma by_net_perm n l1 l2 : l1 ≡ₚ l2 -> by_net n l1 ≡ₚ by_net n l2.
Proof. intros H. unfold by_net. by rewrite H. Qed.

Lemma length_omap_le {A B} (f : A -> option B) l : (length (omap f l) <= length l)%nat.
Proof.
  induction l as [|a l IH]; [done|]. rewrite omap_cons_eq.
  destruct (f a); simpl; lia.
Qed.

(** X13. When [main] ends without an exception, the records it selected
    from the parsed lines and printed, one line for each, are a list in which
    no key occurs twice, with at most [NSEEDS] IPv4 records, at most
    [MAX_SEEDS_PER_ASN] of them resolving to any one ASN; it prints no more
    lines than it has read. *)
Theorem main_bounds resolve lines out err :
  main resolve lines = Ok (out, err) ->
  exists parsed final,
    mapM parseline lines = Ok parsed
    /\ final = (select resolve parsed).1
    /\ out = format_node <$> final
    /\ NoDup (sortkey <$> final)
    /\ Z.of_nat (length (by_net ipv4 final)) <= NSEEDS
    /\ (forall asn,
          Z.of_nat (resolved_to resolve asn (by_net ipv4 final)) <= MAX_SEEDS_PER_ASN)
    /\ (length out <= length lines)%nat.
Proof.
  unfold main. intros (parsed & Hparsed & H)%bind_Ok.
  unfold select in H. destruct (accepted resolve parsed) as [acc err'] eqn:Hacc.
  injection H as <- <-. exists parsed, (sort_by address_lt acc).
  split; [done|]. split; [unfold select; by rewrite Hacc|]. split; [done|].
  set (z := filtermultiport (candidates parsed)).
  destruct (filterbyasn_kept resolve z MAX_SEEDS_PER_ASN NSEEDS)
    as (kept & Hres & Hsub & Hper & Htot & _); [done..|].
  assert (acc = kept ++ by_net ipv6 z ++ by_net onion z) as ->.
  { rewrite <- Hres. unfold accepted in Hacc. fold z in Hacc. by rewrite Hacc. }
  assert (by_net ipv4 (sort_by address_lt (kept ++ by_net ipv6 z ++ by_net onion z))
          ≡ₚ kept) as Hv4.
  { rewrite (by_net_perm _ _ _ (sort_by_perm _ _)), !by_net_app.
    rewrite !by_net_other, !app_nil_r by done. rewrite by_net_all; [done|].
    apply Forall_forall. intros x Hx. apply (sublist_subseteq _ _ Hsub) in Hx.
    by apply list_elem_of_filter in Hx as [? _]. }
  assert (kept ++ by_net ipv6 z ++ by_net onion z ⊆+ z) as Hz.
  { etrans; [|apply Permutation_submseteq, (by_net_partition z)].
    apply submseteq_app; [by apply sublist_submseteq|done]. }
  split; [|split; [|split]].
  - rewrite sort_by_perm.
    assert (sortkey <$> (kept ++ by_net ipv6 z ++ by_net onion z) ⊆+ sortkey <$> z)
      as Hk by (by apply fmap_submseteq).
    apply submseteq_sublist_l in Hk as (l2 & Hl2 & Hp).
    eapply sublist_NoDup; [|done]. rewrite Hp. apply filtermultiport_NoDup.
  - by rewrite Hv4.
  - intros asn. unfold resolved_to. rewrite Hv4. apply Hper.
  - rewrite length_fmap, sort_by_perm.
    apply submseteq_length in Hz.
    pose proof (sublist_length _ _ (filtermultiport_sublist (candidates parsed))) as H1.
    fold z in H1.
    assert (length (candidates parsed) <= length (omap id parsed))%nat as H2.
    { unfold candidates. rewrite sort_by_perm. unfold quality_filter.
      repeat (etrans; [apply length_filter|]). done. }
    pose proof (length_omap_le id parsed) as H3.
    apply mapM_Ok, Forall2_length in Hparsed. lia.
Qed.

Lemma main_bounds_witness :
  exists parsed final,
    mapM parseline [Sample.line "1.2.3.5:8333" "100.00%" "700000"; Sample.good]
    = Ok parsed
    /\ final = (select (fun _ => Some 64500) parsed).1
    /\ ["1.2.3.4:8333"; "1.2.3.5:8333"] = format_node <$> final
    /\ NoDup (sortkey <$> final)
    /\ Z.of_nat (length (by_net ipv4 final)) <= NSEEDS
    /\ (forall asn,
          Z.of_nat (resolved_to (fun _ => Some 64500) asn (by_net ipv4 final))
          <= MAX_SEEDS_PER_ASN)
    /\ (length ["1.2.3.4:8333"; "1.2.3.5:8333"]
        <= length [Sample.line "1.2.3.5:8333" "100.00%" "700000"; Sample.good])%nat.
Proof.
  apply (main_bounds (fun _ => Some 64500)
           [Sample.line "1.2.3.5:8333" "100.00%" "700000"; Sample.good]
           ["1.2.3.4:8333"; "1.2.3.5:8333"] []).
  vm_compute. reflexivity.
Defined.

(** X14. An IPv6 or Onion record that was parsed, passes the gates and is
    the only record passing them with its key is always printed, whatever
    the lookups answer and however many records there are. *)
Theorem main_prints_text_addresses resolve lines (parsed : list (option node)) x :
  mapM parseline lines = Ok parsed ->
  Some x ∈ parsed -> passes_gates x ->
  occ (sortkey x) (quality_filter (omap id parsed)) = 1%nat ->
  net x <> ipv4 ->
  exists out err, main resolve lines = Ok (out, err) /\ format_node x ∈ out.
Proof.
  intros Hparsed Hx Hgates Hocc Hnet. unfold main. rewrite Hparsed.
  cbn [mbind outcome_bind]. unfold select.
  destruct (accepted resolve parsed) as [acc err] eqn:Hacc.
  exists (format_node <$> sort_by address_lt acc), err. split; [done|].
  apply list_elem_of_fmap_2, sort_by_elem_of.
  assert (x ∈ filtermultiport (candidates parsed)) as Hfm.
  { rewrite filtermultiport_filter, list_elem_of_filter, candidates_elem_of.
    unfold candidates. rewrite (occ_perm _ _ _ (sort_by_perm _ _)).
    split; [done|]. split; [|done].
    apply list_elem_of_omap. by exists (Some x). }
  destruct (filterbyasn_kept resolve (filtermultiport (candidates parsed))
              MAX_SEEDS_PER_ASN NSEEDS) as (kept & Hres & _); [done..|].
  unfold accepted in Hacc. rewrite Hacc in Hres. cbn [fst] in Hres. subst acc.
  rewrite !elem_of_app. right. unfold by_net. rewrite !list_elem_of_filter.
  destruct (net x); [done|by left|by right].
Qed.

Lemma main_prints_text_addresses_witness :
  exists out err,
    main (fun _ => None)
      [Sample.good; Sample.line "[2001:db8::1]:8333" "100.00%" "700000"]
    = Ok (out, err)
    /\ format_node SampleNode.d ∈ out.
Proof.
  apply (main_prints_text_addresses (fun _ => None)
           [Sample.good; Sample.line "[2001:db8::1]:8333" "100.00%" "700000"]
           [Some SampleNode.a; Some SampleNode.d] SampleNode.d).
  - vm_compute. reflexivity.
  - set_solver.
  - unfold passes_gates. split; [reflexivity|]. split; [reflexivity|].
    split; [unfold MIN_BLOCKS; simpl; lia|]. split; [|reflexivity].
    unfold SUSPICIOUS_HOSTS. intros H.
    apply elem_of_cons in H as [H|H]; [discriminate|by apply elem_of_nil in H].
  - vm_compute. reflexivity.
  - discriminate.
Defined.
